(** * pyiridium9602: the Iridium 9602 SBD driver and its modem emulator

    A shallow embedding of [pyiridium9602/pyiridium.py] and
    [pyiridium9602/pyiridium_server.py]: the wire codec, the command
    catalog, the protocol engine ([IridiumCommunicator.check_io]) and the
    emulator's command dispatch ([IridiumServer.check_incoming]).

    Python [bytes] values are lists of [Byte.byte]; Python [int]s are [Z];
    the dictionaries ([options], [MO_STATUS], [MT_STATUS]) are stdpp
    [gmap]s; the two [collections.deque(maxlen=100)] queues are lists whose
    append drops the oldest entry when the queue is full.  Exceptions are
    explicit results.  What the engine does to the outside world (calls on
    the [Signal] object, bytes written to the serial port, the one [print]
    and the one [time.sleep]) is returned as a list of events.

    The serial port and the sink stay abstract: a write to the port is
    recorded and taken to succeed, a callback of the sink is recorded and
    taken to return.  One call of [check_io] is one step; the listener
    thread is the sequence of these steps. *)

From Stdlib Require Import ZArith Lia List Strings.String Strings.Byte.
From stdpp Require Import base gmap list strings.
Import ListNotations.

Local Open Scope Z_scope.

(** ** Python [bytes] *)

Abbreviation bytes := (list byte).

#[global] Instance byte_eq_decision : EqDecision byte := Byte.byte_eq_dec.

(** [b"AT"] reads like the source's bytes literal. *)
Definition b (s : string) : bytes := list_byte_of_string s.

Definition CR : byte := x0d.
Definition LF : byte := x0a.

Definition byte_val (c : byte) : Z := Z.of_N (Byte.to_N c).

Definition byte_of_Z (z : Z) : byte :=
  match Byte.of_N (Z.to_N z) with
  | Some c => c
  | None => x00
  end.

Definition bytes_eqb (s t : bytes) : bool :=
  bool_decide (s = t).

(** [s.startswith(sub)] *)
Fixpoint startswith (sub s : bytes) : bool :=
  match sub, s with
  | [], _ => true
  | _ :: _, [] => false
  | c :: sub', d :: s' => Byte.eqb c d && startswith sub' s'
  end.

(** [s.find(sub)]: the lowest index where [sub] starts, [-1] when there is
    none.  [find_from sub s i] scans [s], whose first byte sits at index
    [i] of the whole string. *)
Fixpoint find_from (sub s : bytes) (i : Z) : Z :=
  if startswith sub s then i
  else match s with
       | [] => -1
       | _ :: s' => find_from sub s' (i + 1)
       end.

Definition find (sub s : bytes) : Z := find_from sub s 0.

(** [sub in s] *)
Definition contains (sub s : bytes) : bool := 0 <=? find sub s.

(** [s[i:]] and [s[:i]] and [s[i:j]] for the non-negative indices the
    source computes. *)
Definition from_idx (s : bytes) (i : Z) : bytes := drop (Z.to_nat i) s.
Definition upto_idx (s : bytes) (i : Z) : bytes := take (Z.to_nat i) s.
Definition slice (s : bytes) (i j : Z) : bytes :=
  take (Z.to_nat j - Z.to_nat i)%nat (drop (Z.to_nat i) s).

(** The bytes [bytes.strip()] removes: space, tab, newline, carriage
    return, vertical tab and form feed. *)
Definition is_space (c : byte) : bool :=
  let v := byte_val c in (v =? 32) || ((9 <=? v) && (v <=? 13)).

Fixpoint lstrip (s : bytes) : bytes :=
  match s with
  | [] => []
  | c :: s' => if is_space c then lstrip s' else s
  end.

Definition rstrip (s : bytes) : bytes := rev (lstrip (rev s)).

Definition strip (s : bytes) : bytes := lstrip (rstrip s).

(** [bytes.splitlines()]: lines end at [\n], [\r] or [\r\n]; the
    terminators are not kept, and a terminator at the very end opens no
    further (empty) line.  [started] tells that the scan is inside a line,
    [line] holds the bytes of that line so far. *)
Fixpoint splitlines_from (started : bool) (line s : bytes) : list bytes :=
  match s with
  | [] => if started then [line] else []
  | c :: rest =>
      if Byte.eqb c LF then line :: splitlines_from false [] rest
      else if Byte.eqb c CR then
        match rest with
        | c2 :: rest2 =>
            if Byte.eqb c2 LF then line :: splitlines_from false [] rest2
            else line :: splitlines_from false [] rest
        | [] => [line]
        end
      else splitlines_from true (line ++ [c]) rest
  end.

Definition splitlines (s : bytes) : list bytes := splitlines_from false [] s.

(** [s.replace(old, new)]: the occurrences of [old] are replaced from left
    to right, without overlap.  [skip] counts the bytes of a match that are
    still to be passed over. *)
Fixpoint replace_go (old new : bytes) (skip : nat) (s : bytes) : bytes :=
  match s with
  | [] => []
  | c :: s' =>
      match skip with
      | S k => replace_go old new k s'
      | O =>
          if startswith old s
          then new ++ replace_go old new (length old - 1)%nat s'
          else c :: replace_go old new O s'
      end
  end.

Definition replace (old new s : bytes) : bytes :=
  match old with
  | [] => new ++ flat_map (fun c => c :: new) s
  | _ :: _ => replace_go old new O s
  end.

(** [int.from_bytes(s, "big")] *)
Definition from_bytes_big (s : bytes) : Z :=
  fold_left (fun acc c => acc * 256 + byte_val c) s 0.

(** The [n] low base-256 digits of [x], most significant first. *)
Fixpoint be_digits (n : nat) (x : Z) : bytes :=
  match n with
  | O => []
  | S k => be_digits k (x / 256) ++ [byte_of_Z (x mod 256)]
  end.

(** [x.to_bytes(n, "big")]: [None] stands for the [OverflowError] raised
    when [x] is negative or does not fit. *)
Definition to_bytes_big (n : nat) (x : Z) : option bytes :=
  if (0 <=? x) && (x <? 256 ^ Z.of_nat n) then Some (be_digits n x) else None.

(** [sum(s)] *)
Definition bsum (s : bytes) : Z :=
  fold_right (fun c acc => byte_val c + acc) 0 s.

Definition blen (s : bytes) : Z := Z.of_nat (length s).

(** ** Python text: [bytes.decode("utf-8")], [str.split], [int], [str]

    A decoded [str] is kept as its UTF-8 encoding, so [decode] is the
    validity check of the strict UTF-8 decoder. *)

Definition in_range (lo hi v : Z) : bool := (lo <=? v) && (v <=? hi).

(** [pending] continuation bytes are still due; the next one has to lie in
    [lo..hi]. *)
Fixpoint utf8_scan (pending : nat) (lo hi : Z) (s : bytes) : bool :=
  match s with
  | [] => match pending with O => true | S _ => false end
  | c :: rest =>
      let v := byte_val c in
      match pending with
      | S k => in_range lo hi v && utf8_scan k 128 191 rest
      | O =>
          if v <? 128 then utf8_scan 0 128 191 rest
          else if in_range 194 223 v then utf8_scan 1 128 191 rest
          else if v =? 224 then utf8_scan 2 160 191 rest
          else if in_range 225 236 v || in_range 238 239 v
               then utf8_scan 2 128 191 rest
          else if v =? 237 then utf8_scan 2 128 159 rest
          else if v =? 240 then utf8_scan 3 144 191 rest
          else if in_range 241 243 v then utf8_scan 3 128 191 rest
          else if v =? 244 then utf8_scan 3 128 143 rest
          else false
      end
  end.

(** [s.decode("utf-8")]; [None] is the [UnicodeDecodeError]. *)
Definition decode_utf8 (s : bytes) : option bytes :=
  if utf8_scan 0 128 191 s then Some s else None.

(** [len(text)]: the number of code points, one per byte that is not a
    continuation byte. *)
Definition text_len (t : bytes) : Z :=
  blen (filter (fun c => negb (in_range 128 191 (byte_val c))) t).

(** [text.split(",")] *)
Fixpoint split_on (sep : byte) (cur s : bytes) : list bytes :=
  match s with
  | [] => [cur]
  | c :: rest =>
      if Byte.eqb c sep then cur :: split_on sep [] rest
      else split_on sep (cur ++ [c]) rest
  end.

Definition split_comma (t : bytes) : list bytes := split_on ","%byte [] t.

(** The value of a digit character in bases up to 36. *)
Definition digit_val (c : byte) : option Z :=
  let v := byte_val c in
  if in_range 48 57 v then Some (v - 48)
  else if in_range 97 122 v then Some (v - 87)
  else if in_range 65 90 v then Some (v - 55)
  else None.

(** The digits of an integer literal: digits below [base], single
    underscores allowed between them.  Returns the value and the rest of
    the text; [None] when there is no digit or an underscore is doubled or
    left at the end. *)
Fixpoint scan_digits (base : Z) (prev_us seen : bool) (acc : Z) (s : bytes)
  : option (Z * bytes) :=
  let stop := if prev_us then None else if seen then Some (acc, s) else None in
  match s with
  | [] => stop
  | c :: rest =>
      if Byte.eqb c "_"%byte then
        if prev_us then None else scan_digits base true seen acc rest
      else
        match digit_val c with
        | Some d =>
            if d <? base then scan_digits base false true (acc * base + d) rest
            else stop
        | None => stop
        end
  end.

(** [int(text, base)] for [base] 10 or 16, on ASCII text: optional blanks
    around, an optional sign, for base 16 an optional [0x] prefix, then the
    digits.  [None] is the [ValueError].  A token holding a non-ASCII
    character is rejected here; CPython would also read the decimal digits
    of other scripts, which the modem never sends.  The interpreter's cap on
    the number of digits of a decimal literal (4300 by default in recent
    versions) is not modelled either. *)
Definition py_int (base : Z) (t : bytes) : option Z :=
  let s := lstrip t in
  let '(neg, s) :=
    match s with
    | c :: r => if Byte.eqb c "-"%byte then (true, r)
                else if Byte.eqb c "+"%byte then (false, r)
                else (false, s)
    | [] => (false, s)
    end in
  let s :=
    if (base =? 16) && (startswith (b"0x") s || startswith (b"0X") s) then
      match drop 2 s with
      | c :: r => if Byte.eqb c "_"%byte then r else c :: r
      | [] => []
      end
    else s in
  if startswith (b"_") s then None
  else
    match scan_digits base false false 0 s with
    | Some (v, rest) =>
        match lstrip rest with
        | [] => Some (if neg then - v else v)
        | _ :: _ => None
        end
    | None => None
    end.

(** The decimal digits of [n >= 0], most significant first; [fuel] bounds
    the number of digits. *)
Fixpoint dec_digits (fuel : nat) (n : Z) (acc : bytes) : bytes :=
  match fuel with
  | O => acc
  | S f =>
      let acc' := byte_of_Z (48 + n mod 10) :: acc in
      if n <? 10 then acc' else dec_digits f (n / 10) acc'
  end.

(** [str(n).encode("utf-8")] for an [int] [n]. *)
Definition str_of_int (n : Z) : bytes :=
  let m := Z.abs n in
  let ds := dec_digits (S (Z.to_nat (Z.log2 m))) m [] in
  if n <? 0 then "-"%byte :: ds else ds.

(** ** Exceptions and results *)

Inductive exn : Type :=
  | IridiumError (msg : string)
  | TypeError
  | IndexError
  | OverflowError.

Inductive result (A : Type) : Type :=
  | Ok (a : A)
  | Raise (e : exn).
Arguments Ok {A} a.
Arguments Raise {A} e.

(** [parts[i]] inside a [try]: a missing part is an [IndexError], a part
    that is no integer a [ValueError]; both end as [None] here. *)
Definition int_part (parts : list bytes) (i : nat) : option Z :=
  match parts !! i with
  | Some p => py_int 10 p
  | None => None
  end.

(** ** The command catalog ([class Command]) *)

Module Command.
Definition OK : bytes := b"OK".
Definition RING : bytes := b"SBDRING".
Definition READY : bytes := b"READY".
Definition PING : bytes := b"AT".
Definition ECHO_BASE : bytes := b"ATE".
Definition ECHO_ON : bytes := b"ATE1".
Definition ECHO_OFF : bytes := b"ATE0".
Definition FLOW_CONTROL_BASE : bytes := b"AT&K".
Definition FLOW_CONTROL_ON : bytes := b"AT&K3".
Definition FLOW_CONTROL_OFF : bytes := b"AT&K0".
Definition RING_ALERTS_BASE : bytes := b"AT+SBDMTA".
Definition RING_ALERTS_ON : bytes := b"AT+SBDMTA=1".
Definition RING_ALERTS_OFF : bytes := b"AT+SBDMTA=0".
Definition SYSTEM_TIME : bytes := b"AT-MSSTM".
Definition SERIAL_NUMBER : bytes := b"AT+CGSN".
Definition SIGNAL_QUALITY : bytes := b"AT+CSQ".
Definition CHECK_RING : bytes := b"AT+CRIS".
Definition CLEAR_BUFFER : bytes := b"AT+SBDD".
Definition CLEAR_MO_BUFFER : bytes := b"AT+SBDD0".
Definition CLEAR_MT_BUFFER : bytes := b"AT+SBDD1".
Definition CLEAR_BOTH_BUFFERS : bytes := b"AT+SBDD2".
Definition SESSION : bytes := b"AT+SBDIX".
Definition SESSION_RECEIVE : bytes := b"+SBDIX:".
Definition READ_BINARY : bytes := b"AT+SBDRB".
Definition READ_BINARY_RECEIVE : bytes := b"AT+SBDRB" ++ [CR].
Definition WRITE_BINARY : bytes := b"AT+SBDWB=".
Definition REPEAT_LAST_COMMAND : bytes := b"A/".
Definition RETURN_ECHO : bytes := b"En".
Definition RETURN_IDENTIFICATION : bytes := b"In".

(** *** [all_commands] and [is_command]

    The class is inspected at run time: [dir(cls)] lists the attribute
    names (they are [str]) in sorted order, capitals before the
    underscore names inherited from [object], the two class methods
    last. *)

Definition constants : list (string * bytes) :=
  [ ("CHECK_RING", CHECK_RING);
    ("CLEAR_BOTH_BUFFERS", CLEAR_BOTH_BUFFERS);
    ("CLEAR_BUFFER", CLEAR_BUFFER);
    ("CLEAR_MO_BUFFER", CLEAR_MO_BUFFER);
    ("CLEAR_MT_BUFFER", CLEAR_MT_BUFFER);
    ("ECHO_BASE", ECHO_BASE);
    ("ECHO_OFF", ECHO_OFF);
    ("ECHO_ON", ECHO_ON);
    ("FLOW_CONTROL_BASE", FLOW_CONTROL_BASE);
    ("FLOW_CONTROL_OFF", FLOW_CONTROL_OFF);
    ("FLOW_CONTROL_ON", FLOW_CONTROL_ON);
    ("OK", OK);
    ("PING", PING);
    ("READY", READY);
    ("READ_BINARY", READ_BINARY);
    ("READ_BINARY_RECEIVE", READ_BINARY_RECEIVE);
    ("REPEAT_LAST_COMMAND", REPEAT_LAST_COMMAND);
    ("RETURN_ECHO", RETURN_ECHO);
    ("RETURN_IDENTIFICATION", RETURN_IDENTIFICATION);
    ("RING", RING);
    ("RING_ALERTS_BASE", RING_ALERTS_BASE);
    ("RING_ALERTS_OFF", RING_ALERTS_OFF);
    ("RING_ALERTS_ON", RING_ALERTS_ON);
    ("SERIAL_NUMBER", SERIAL_NUMBER);
    ("SESSION", SESSION);
    ("SESSION_RECEIVE", SESSION_RECEIVE);
    ("SIGNAL_QUALITY", SIGNAL_QUALITY);
    ("SYSTEM_TIME", SYSTEM_TIME);
    ("WRITE_BINARY", WRITE_BINARY) ]%string.

(** The names every class inherits from [object] (the list grows a
    little from one interpreter version to the next; all of them start
    with an underscore). *)
Definition object_names : list string :=
  [ "__class__"; "__delattr__"; "__dict__"; "__dir__"; "__doc__";
    "__eq__"; "__format__"; "__ge__"; "__getattribute__"; "__gt__";
    "__hash__"; "__init__"; "__init_subclass__"; "__le__"; "__lt__";
    "__module__"; "__ne__"; "__new__"; "__reduce__"; "__reduce_ex__";
    "__repr__"; "__setattr__"; "__sizeof__"; "__str__";
    "__subclasshook__"; "__weakref__" ]%string.

Definition dir_cls : list string :=
  map fst constants ++ object_names
  ++ ["all_commands"%string; "is_command"%string].

(** A Python value handed to [str.startswith]. *)
Inductive pyval : Type :=
  | PyStr (s : string)
  | PyBytes (v : bytes).

(** [name.startswith(prefix)] for a [str] [name]: a [bytes] prefix is a
    [TypeError]. *)
Definition str_startswith (name : string) (prefix : pyval) : result bool :=
  match prefix with
  | PyStr p => Ok (String.prefix p name)
  | PyBytes _ => Raise TypeError
  end.

(** What [getattr(cls, name)] gives: a bytes constant or something else
    (a bound method, a slot of [object]). *)
Inductive attr : Type :=
  | ABytes (v : bytes)
  | AOther (name : string).

Fixpoint lookup_constant (name : string) (table : list (string * bytes))
  : option bytes :=
  match table with
  | [] => None
  | (n, v) :: more =>
      if String.eqb n name then Some v else lookup_constant name more
  end.

Definition getattr (name : string) : attr :=
  match lookup_constant name constants with
  | Some v => ABytes v
  | None => AOther name
  end.

(** A generator run to its end: the values it yields, closed by a normal
    stop or by the exception that escapes from its body. *)
Inductive gen (A : Type) : Type :=
  | Stop
  | Yield (a : A) (more : gen A)
  | Throw (e : exn).
Arguments Stop {A}.
Arguments Yield {A} a more.
Arguments Throw {A} e.

(** The loop of [all_commands] over the names still to visit;
    [underscore] is the argument the source passes to [startswith]. *)
Fixpoint all_commands_from (underscore : pyval) (names : list string)
  : gen attr :=
  match names with
  | [] => Stop
  | name :: more =>
      match str_startswith name underscore with
      | Raise e => Throw e
      | Ok starts =>
          if negb starts && negb (String.eqb name "OK")
             && negb (String.eqb name "RING")
             && negb (String.eqb name "READY")
          then Yield (getattr name) (all_commands_from underscore more)
          else all_commands_from underscore more
      end
  end.

Definition all_commands_with (underscore : pyval) : gen attr :=
  all_commands_from underscore dir_cls.

(** [data in generator] *)
Fixpoint yields (data : bytes) (g : gen attr) : result bool :=
  match g with
  | Stop => Ok false
  | Yield (ABytes v) more =>
      if bytes_eqb data v then Ok true else yields data more
  | Yield (AOther _) more => yields data more
  | Throw e => Raise e
  end.

Definition is_command_with (underscore : pyval) (data : bytes)
  : result bool :=
  match yields data (all_commands_with underscore) with
  | Ok true => Ok true
  | Ok false => yields (data ++ [CR]) (all_commands_with underscore)
  | Raise e => Raise e
  end.

(** The source writes [name.startswith(b"_")]. *)
Definition all_commands : gen attr := all_commands_with (PyBytes (b"_")).

Definition is_command (data : bytes) : result bool :=
  is_command_with (PyBytes (b"_")) data.
End Command.

(** ** The wire codec *)

Definition parse_error {A : Type} (msg : string) : result A :=
  Raise (IridiumError msg).

(** The shared opening of the line parsers: strip, locate [marker], keep
    the stripped text after it up to the next newline.  [None] when the
    marker is absent. *)
Definition response_token (marker data : bytes) : option bytes :=
  let resp := strip data in
  let idx := find marker resp in
  if 0 <=? idx then
    let resp := strip (from_idx resp (idx + blen marker)) in
    let endline := find [LF] resp in
    Some (if 0 <=? endline then strip (upto_idx resp endline) else resp)
  else None.

Definition parse_system_time (data : bytes) : result Z :=
  let err := parse_error "Could not parse the system time!" in
  match response_token (b"-MSSTM:") data with
  | Some resp =>
      match decode_utf8 resp with
      | Some split_resp =>
          if 8 <=? text_len split_resp then
            match py_int 16 split_resp with
            | Some sys_time => Ok sys_time
            | None => err
            end
          else err
      | None => err
      end
  | None => err
  end.

(** The [for] loop of [parse_serial_number]: the first stripped line that
    is neither empty nor an echo of the command, [b''] when there is none. *)
Fixpoint first_serial_line (lines : list bytes) : bytes :=
  match lines with
  | [] => []
  | line :: more =>
      let line := strip line in
      if negb (contains (b"AT+CGSN") line) && negb (contains (b"AT+GSN") line)
         && negb (bytes_eqb line [])
      then line
      else first_serial_line more
  end.

Definition parse_serial_number (data : bytes) : result bytes :=
  let err := parse_error "Could not parse the serial number!" in
  let resp := first_serial_line (splitlines data) in
  if negb (bytes_eqb resp Command.OK) && negb (bytes_eqb data []) then
    match decode_utf8 resp with
    | Some sn => Ok sn
    | None => err
    end
  else err.

Definition parse_signal_quality (data : bytes) : result Z :=
  let err := parse_error "Could not parse the signal quality!" in
  match response_token (b"+CSQ:") data with
  | Some resp =>
      match decode_utf8 resp with
      | Some split_resp =>
          match py_int 10 split_resp with
          | Some sig => Ok sig
          | None => err
          end
      | None => err
      end
  | None => err
  end.

Definition parse_check_ring (data : bytes) : result (Z * Z) :=
  let err := parse_error "Could not parse the check ring response!" in
  match response_token (b"+CRIS:") data with
  | Some resp =>
      match decode_utf8 resp with
      | Some split_resp =>
          let parts := split_comma split_resp in
          match int_part parts 0, int_part parts 1 with
          | Some tri, Some sri => Ok (tri, sri)
          | _, _ => err
          end
      | None => err
      end
  | None => err
  end.

Record session := {
  mo_status : Z;
  mo_msn : Z;
  mt_status : Z;
  mt_msn : Z;
  mt_length : Z;
  mt_queued : Z
}.

Definition parse_session (data : bytes) : result session :=
  let err := parse_error "Could not parse the session!" in
  match response_token (b"+SBDIX:") data with
  | Some resp =>
      match decode_utf8 resp with
      | Some split_resp =>
          let parts := split_comma split_resp in
          match int_part parts 0, int_part parts 1, int_part parts 2,
                int_part parts 3, int_part parts 4, int_part parts 5 with
          | Some a, Some b1, Some c, Some d, Some e, Some f =>
              Ok {| mo_status := a; mo_msn := b1; mt_status := c;
                    mt_msn := d; mt_length := e; mt_queued := f |}
          | _, _, _, _, _, _ => err
          end
      | None => err
      end
  | None => err
  end.

(** The frame after the optional echo [AT+SBDRB\r]. *)
Definition after_echo (data : bytes) : bytes :=
  let idx := find Command.READ_BINARY_RECEIVE data in
  if 0 <=? idx then from_idx data (idx + 9) else data.

(** [int(sum(content)).to_bytes(4, 'big')[2:]] *)
Definition calc_checksum (content : bytes) : option bytes :=
  match to_bytes_big 4 (bsum content) with
  | Some four => Some (drop 2 four)
  | None => None
  end.

Definition parse_read_binary (data : bytes)
  : result (Z * bytes * bytes * bytes) :=
  let err := parse_error "Could not parse the read binary response!" in
  let data := after_echo data in
  let msg_len := from_bytes_big (upto_idx data 2) in
  let content := slice data 2 (msg_len + 2) in
  let checksum := slice data (msg_len + 2) (msg_len + 2 + 2) in
  if negb (length checksum =? 2)%nat then err
  else
    match calc_checksum content with
    | Some calc_check => Ok (msg_len, content, checksum, calc_check)
    | None => err
    end.

Definition has_read_binary_data (data : bytes) : bool :=
  let data := after_echo data in
  let msg_len := from_bytes_big (upto_idx data 2) in
  let checksum := slice data (msg_len + 2) (msg_len + 2 + 2) in
  (length checksum =? 2)%nat.

Definition parse_write_binary (data : bytes) : result bool :=
  let resp := strip data in
  match last resp with
  | Some c => Ok (bytes_eqb [c] (b"0"))
  | None => parse_error "Could not parse the write binary response!"
  end.

(** ** Status tables *)

Definition MO_STATUS : gmap Z string :=
  list_to_map
    [ (0, "MO message, if any, transferred successfully.");
      (1, "MO message, if any, transferred successfully, but the MT message in the  queue was too big to be transferred.");
      (2, "MO message, if any, transferred successfully, but the requested Location Update was not accepted.");
      (3, "Reserved, but indicate MO session success if used.");
      (4, "Reserved, but indicate MO session success if used.");
      (5, "Reserved, but indicate MO session failure if used.");
      (6, "Reserved, but indicate MO session failure if used.");
      (7, "Reserved, but indicate MO session failure if used.");
      (8, "Reserved, but indicate MO session failure if used.");
      (10, "Gateway reported that the call did not complete in the allowed time.");
      (11, "MO message queue at the Gateway is full.");
      (12, "MO message has too many segments.");
      (13, "Gateway reported that the session did not complete");
      (14, "Invalid segment size.");
      (15, "Access is denied.");
      (16, "9602 has been locked and may not make SBD calls (see +CULK command).");
      (17, "Gateway not responding (local session timeout).");
      (18, "Connection lost (RF drop).");
      (32, "No network service, unable to initiate call.");
      (33, "Antenna fault, unable to initiate call.");
      (34, "Radio is disabled, unable to initiate call (see *Rn command).");
      (35, "9602 is busy, unable to initiate call (typically performing auto-registration).")
    ]%string.

Definition MT_STATUS : gmap Z string :=
  list_to_map
    [ (0, "No MT SBD message to receive from the Gateway.");
      (1, "MT SBD message successfully received from the Gateway.");
      (2, "An error occurred while attempting to perform a mailbox check or receive a message from the Gateway.")
    ]%string.

(** [table.get(key, fallback)] *)
Definition table_get (table : gmap Z string) (key : Z) (fallback : string)
  : string :=
  default fallback (table !! key).

(** ** The event sink and the outside world *)

Inductive event : Type :=
  | SystemTimeUpdated (system_time : Z)
  | SerialNumberUpdated (sn : bytes)
  | SignalQualityUpdated (sig : Z)
  | CheckRingUpdated (tri sri : Z)
  | MessageReceived (data : bytes)
  | MessageReceiveFailed (msg_len : Z) (content checksum calc_check : bytes)
  | MessageTransferred (msn : Z)
  | MessageTransferFailed (msn : Z)
  | Notification (ntype message additional_info : string)
  | CommandFinished (cmd : bytes) (value : bool) (contents : bytes)
  | SerialWrite (msg : bytes)
  | Print (tag : string) (data buf : bytes)
  | Sleep (milliseconds : Z).

Definition str_of_exn (e : exn) : string :=
  match e with
  | IridiumError msg => msg
  | TypeError => "TypeError"
  | IndexError => "IndexError"
  | OverflowError => "OverflowError"
  end.

(** ** The protocol engine ([class IridiumCommunicator]) *)

Record engine := {
  options : gmap string bool;
  serial_number : bytes;
  last_mt_queued : Z;
  last_mt_queued_retry : Z;
  read_buf : bytes;
  write_queue : list bytes;
  sequential_write_queue : list bytes;
  previous_command : option bytes
}.

Definition set_serial_number (st : engine) (v : bytes) : engine :=
  {| options := options st; serial_number := v;
     last_mt_queued := last_mt_queued st;
     last_mt_queued_retry := last_mt_queued_retry st;
     read_buf := read_buf st; write_queue := write_queue st;
     sequential_write_queue := sequential_write_queue st;
     previous_command := previous_command st |}.

Definition set_last_mt (st : engine) (queued retry : Z) : engine :=
  {| options := options st; serial_number := serial_number st;
     last_mt_queued := queued; last_mt_queued_retry := retry;
     read_buf := read_buf st; write_queue := write_queue st;
     sequential_write_queue := sequential_write_queue st;
     previous_command := previous_command st |}.

Definition set_read_buf (st : engine) (v : bytes) : engine :=
  {| options := options st; serial_number := serial_number st;
     last_mt_queued := last_mt_queued st;
     last_mt_queued_retry := last_mt_queued_retry st;
     read_buf := v; write_queue := write_queue st;
     sequential_write_queue := sequential_write_queue st;
     previous_command := previous_command st |}.

Definition set_write_queue (st : engine) (v : list bytes) : engine :=
  {| options := options st; serial_number := serial_number st;
     last_mt_queued := last_mt_queued st;
     last_mt_queued_retry := last_mt_queued_retry st;
     read_buf := read_buf st; write_queue := v;
     sequential_write_queue := sequential_write_queue st;
     previous_command := previous_command st |}.

Definition set_sequential_write_queue (st : engine) (v : list bytes)
  : engine :=
  {| options := options st; serial_number := serial_number st;
     last_mt_queued := last_mt_queued st;
     last_mt_queued_retry := last_mt_queued_retry st;
     read_buf := read_buf st; write_queue := write_queue st;
     sequential_write_queue := v;
     previous_command := previous_command st |}.

(** The plain assignment [self._previous_command = v]. *)
Definition assign_previous_command (st : engine) (v : option bytes)
  : engine :=
  {| options := options st; serial_number := serial_number st;
     last_mt_queued := last_mt_queued st;
     last_mt_queued_retry := last_mt_queued_retry st;
     read_buf := read_buf st; write_queue := write_queue st;
     sequential_write_queue := sequential_write_queue st;
     previous_command := v |}.

(** [collections.deque(maxlen=100).append]: a full queue first drops its
    oldest entry. *)
Definition maxlen : nat := 100.

Definition deque_append (q : list bytes) (x : bytes) : list bytes :=
  let q' := q ++ [x] in drop (length q' - maxlen)%nat q'.

Definition queue_command (st : engine) (command : bytes) : engine :=
  set_sequential_write_queue st
    (deque_append (sequential_write_queue st) command).

Definition ascii_lower (c : Ascii.ascii) : Ascii.ascii :=
  let n := Ascii.nat_of_ascii c in
  if ((65 <=? n) && (n <=? 90))%nat then Ascii.ascii_of_nat (n + 32) else c.

(** [str.lower()], on ASCII names. *)
Fixpoint lower (s : string) : string :=
  match s with
  | EmptyString => EmptyString
  | String c s' => String (ascii_lower c) (lower s')
  end.

Definition get_option (st : engine) (option_name : string) : bool :=
  default false (options st !! lower option_name).

(** Truth value of the register: [None] and [b''] are false. *)
Definition truthy (v : option bytes) : bool :=
  match v with
  | Some (_ :: _) => true
  | _ => false
  end.

Definition pending_command (st : engine) : option bytes :=
  previous_command st.

(** The setter of the [previous_command] property. *)
Definition previous_command_setter (st : engine) (command : option bytes)
  : engine * list event :=
  let fired :=
    match previous_command st with
    | Some (c :: cs) =>
        match command with
        | None => [CommandFinished (c :: cs) true []]
        | Some _ => [CommandFinished (c :: cs) false []]
        end
    | _ => []
    end in
  (assign_previous_command st command, fired).

(** What one call leaves behind: the engine, what it did to the sink and
    the port, and the exception that ended it, if any. *)
Record outcome := Outcome {
  after : engine;
  fired : list event;
  raised : option exn
}.

(** A response handler returns the engine, the events and
    [command_success]. *)
Definition handled : Type := engine * list event * bool.

Definition parse_failed (st : engine) (what : string) (e : exn) : handled :=
  (st, [Notification "Error" what (str_of_exn e)], false).

Definition on_system_time (st : engine) (data : bytes) : handled :=
  match parse_system_time data with
  | Ok sys_time => (st, [SystemTimeUpdated sys_time], true)
  | Raise e => parse_failed st "Could not parse the system time response" e
  end.

Definition on_serial_number (st : engine) (data : bytes) : handled :=
  match parse_serial_number data with
  | Ok sn => (set_serial_number st sn, [SerialNumberUpdated sn], true)
  | Raise e => parse_failed st "Could not parse the serial number response" e
  end.

Definition on_signal_quality (st : engine) (data : bytes) : handled :=
  match parse_signal_quality data with
  | Ok sig => (st, [SignalQualityUpdated sig], true)
  | Raise e => parse_failed st "Could not parse the signal quality response" e
  end.

Definition on_check_ring (st : engine) (data : bytes) : handled :=
  match parse_check_ring data with
  | Ok (tri, sri) =>
      let st' :=
        if (0 <? sri) && negb (get_option st "telephone")
           && get_option st "auto_read"
        then queue_command st Command.SESSION else st in
      (st', [CheckRingUpdated tri sri], true)
  | Raise e => parse_failed st "Could not parse the check ring response" e
  end.

(** The outgoing half of the session handler. *)
Definition session_outgoing (st : engine) (s : session)
  : engine * list event :=
  if (mo_status s <=? 4) && (0 <=? mo_status s) then
    (queue_command st Command.CLEAR_MO_BUFFER,
     [MessageTransferred (mo_msn s)])
  else
    (st,
     [Notification "Error" "Message Transfer Failed!"
        (table_get MO_STATUS (mo_status s) "Unknown failure!");
      MessageTransferFailed (mo_msn s)]).

(** The incoming half; it also returns the local [mt_queued], which the
    retry branch overwrites. *)
Definition session_incoming (st : engine) (s : session)
  : engine * list event * Z :=
  if (mt_status s =? 1) && (0 <? mt_length s) then
    (queue_command (set_last_mt st (mt_queued s) 0) Command.READ_BINARY,
     [], mt_queued s)
  else if 1 <? mt_status s then
    let note :=
      Notification "Error" "Message Receive Failed!"
        (table_get MT_STATUS (mt_status s) "Unknown error!") in
    if (mt_queued s =? 0) && (1 <? last_mt_queued st)
       && (last_mt_queued_retry st <? 2)
    then
      (set_last_mt st (last_mt_queued st) (last_mt_queued_retry st + 1),
       [note; Sleep 500], last_mt_queued st)
    else (st, [note], mt_queued s)
  else (st, [], mt_queued s).

Definition on_session (st : engine) (data : bytes) : handled :=
  match parse_session data with
  | Ok s =>
      let '(st1, ev1) := session_outgoing st s in
      let '(st2, ev2, queued) := session_incoming st1 s in
      let st3 :=
        if (0 <? queued) && get_option st2 "auto_read"
        then queue_command st2 Command.SESSION else st2 in
      (st3, ev1 ++ ev2, true)
  | Raise e => parse_failed st "Could not parse the session response" e
  end.

(** The [while] loop of the read-binary branch: as long as [data] is no
    complete frame and the buffer holds another [OK], move the bytes up to
    that [OK] over to [data].  Every round shortens [buf], so [length buf]
    rounds are enough ([gather_exit] below). *)
Fixpoint gather (fuel : nat) (data buf : bytes) : bytes * bytes :=
  match fuel with
  | O => (data, buf)
  | S f =>
      if negb (has_read_binary_data data) && contains Command.OK buf then
        let idx := find Command.OK buf in
        gather f (data ++ Command.OK ++ upto_idx buf idx)
               (from_idx buf (idx + 2))
      else (data, buf)
  end.

Definition on_read_binary (st : engine) (data : bytes) : handled :=
  match parse_read_binary data with
  | Ok (msg_len, content, checksum, calc_check) =>
      if (msg_len =? blen content) && bytes_eqb calc_check checksum
      then (st, [MessageReceived content], true)
      else (st, [MessageReceiveFailed msg_len content checksum calc_check],
            true)
  | Raise e => parse_failed st "Could not parse the read binary data" e
  end.

Definition on_write_binary (st : engine) (data : bytes) : handled :=
  match parse_write_binary data with
  | Ok success => (st, [], success)
  | Raise e => parse_failed st "Could not parse the write binary response" e
  end.

Definition on_clear_buffer (st : engine) (data : bytes) : handled :=
  let resp :=
    strip (replace Command.CLEAR_BOTH_BUFFERS []
             (replace Command.CLEAR_MO_BUFFER []
                (replace Command.CLEAR_MO_BUFFER [] data))) in
  (st, [], bytes_eqb resp (b"0")).

(** The end of both branches: report the command and clear the register. *)
Definition finish (st : engine) (cmd : bytes) (events : list event)
  (command_success : bool) (data : bytes) : outcome :=
  Outcome (assign_previous_command st None)
          (events ++ [CommandFinished cmd command_success data])
          None.

(** [check_pending_command], called by [check_io] with the register
    holding [cmd]. *)
Definition check_pending_command (cmd : bytes) (st : engine) : outcome :=
  let buf := read_buf st in
  if contains Command.OK buf then
    let idx := find Command.OK buf in
    let data := upto_idx buf idx in
    let buf := from_idx buf (idx + 2) in
    let st := set_read_buf st buf in
    if bytes_eqb Command.SYSTEM_TIME cmd then
      let '(st, ev, ok) := on_system_time st data in finish st cmd ev ok data
    else if bytes_eqb Command.SERIAL_NUMBER cmd then
      let '(st, ev, ok) := on_serial_number st data in finish st cmd ev ok data
    else if bytes_eqb Command.SIGNAL_QUALITY cmd then
      let '(st, ev, ok) := on_signal_quality st data in
      finish st cmd ev ok data
    else if bytes_eqb Command.CHECK_RING cmd then
      let '(st, ev, ok) := on_check_ring st data in finish st cmd ev ok data
    else if bytes_eqb Command.SESSION cmd then
      let '(st, ev, ok) := on_session st data in finish st cmd ev ok data
    else if bytes_eqb Command.READ_BINARY cmd then
      let '(data, buf) := gather (length buf) data buf in
      if negb (has_read_binary_data data) then
        let buf := data ++ Command.OK ++ buf in
        Outcome (set_read_buf st buf) [Print "here" data buf] None
      else
        let st := set_read_buf st buf in
        let '(st, ev, ok) := on_read_binary st data in
        finish st cmd ev ok data
    else if bytes_eqb Command.WRITE_BINARY cmd then
      let '(st, ev, ok) := on_write_binary st data in finish st cmd ev ok data
    else if contains Command.CLEAR_BUFFER cmd then
      let '(st, ev, ok) := on_clear_buffer st data in finish st cmd ev ok data
    else finish st cmd [] true data
  else if contains Command.READY buf
          && negb (bytes_eqb Command.READ_BINARY cmd) then
    let idx := find Command.READY buf in
    let data := upto_idx buf idx in
    let st := set_read_buf st (from_idx buf (idx + blen Command.READY)) in
    if startswith Command.WRITE_BINARY cmd then
      match write_queue st with
      | [] => Outcome st [] (Some IndexError)
      | message :: rest =>
          let st := set_write_queue st rest in
          match calc_checksum message with
          | None => Outcome st [] (Some OverflowError)
          | Some checksum =>
              finish st cmd [SerialWrite (message ++ checksum)] true data
          end
      end
    else finish st cmd [] true data
  else Outcome st [] None.

Definition check_unsolicited (st : engine) : outcome :=
  let buf := read_buf st in
  if contains Command.RING buf then
    let idx := find Command.RING buf in
    let st := set_read_buf st (from_idx buf (idx + blen Command.RING)) in
    if negb (bool_decide (Command.SESSION ∈ sequential_write_queue st))
    then Outcome (queue_command st Command.SESSION) [] None
    else Outcome st [] None
  else
    match sequential_write_queue st with
    | cmd :: rest =>
        let st := set_sequential_write_queue st rest in
        let st := assign_previous_command st (Some cmd) in
        Outcome (set_read_buf st []) [SerialWrite (cmd ++ [CR])] None
    | [] =>
        match last (splitlines buf) with
        | Some line => Outcome (set_read_buf st line) [] None
        | None => Outcome st [] None
        end
    end.

Definition check_io (st : engine) (message : bytes) : outcome :=
  let st := set_read_buf st (read_buf st ++ message) in
  match pending_command st with
  | Some (c :: cs) => check_pending_command (c :: cs) st
  | _ => check_unsolicited st
  end.

(** ** The modem emulator ([class IridiumServer]) *)

Module Server.

Record server := {
  options : gmap string bool;
  serial_number : bytes;
  session_counter : Z;
  signal_quality : Z;
  read_history : list bytes;
  mo_status : Z;
  mt_msn : Z;
  read_buf : bytes;
  write_queue : list bytes
}.

Definition set_options (sv : server) (v : gmap string bool) : server :=
  {| options := v; serial_number := serial_number sv;
     session_counter := session_counter sv;
     signal_quality := signal_quality sv;
     read_history := read_history sv; mo_status := mo_status sv;
     mt_msn := mt_msn sv; read_buf := read_buf sv;
     write_queue := write_queue sv |}.

Definition set_read_history (sv : server) (v : list bytes) : server :=
  {| options := options sv; serial_number := serial_number sv;
     session_counter := session_counter sv;
     signal_quality := signal_quality sv;
     read_history := v; mo_status := mo_status sv;
     mt_msn := mt_msn sv; read_buf := read_buf sv;
     write_queue := write_queue sv |}.

Definition set_write_queue (sv : server) (v : list bytes) : server :=
  {| options := options sv; serial_number := serial_number sv;
     session_counter := session_counter sv;
     signal_quality := signal_quality sv;
     read_history := read_history sv; mo_status := mo_status sv;
     mt_msn := mt_msn sv; read_buf := read_buf sv;
     write_queue := v |}.

(** The three assignments that end the session branch. *)
Definition set_counters (sv : server) (counter msn status : Z) : server :=
  {| options := options sv; serial_number := serial_number sv;
     session_counter := counter;
     signal_quality := signal_quality sv;
     read_history := read_history sv; mo_status := status;
     mt_msn := msn; read_buf := read_buf sv;
     write_queue := write_queue sv |}.

Definition get_option (sv : server) (option_name : string) : bool :=
  default false (options sv !! lower option_name).

Definition set_option (sv : server) (option_name : string) (value : bool)
  : server :=
  set_options sv (<[lower option_name := value]> (options sv)).

Definition is_echo (sv : server) : bool := get_option sv "echo".

(** What [echo_command] hands to [_silent_write]. *)
Definition echo_command (sv : server) (cmd : bytes) : list bytes :=
  if is_echo sv then [cmd ++ [CR; LF]] else [].

Definition ok_line : bytes := Command.OK ++ [CR; LF].
Definition blank_line : bytes := [CR; LF; CR; LF].

(** How a call of [check_incoming] ends: it returns, it raises, or it
    takes one of the two branches that lie outside this model (the
    system-time reply reads the wall clock, the write-binary exchange
    blocks on the port). *)
Inductive reply : Type :=
  | Returned (sv : server) (written : list bytes)
  | Raised (sv : server) (written : list bytes) (e : exn)
  | Unmodelled.

(** The bytes of the [+SBDIX:] line. *)
Definition session_line (sv : server) : bytes :=
  let mt_status := if (0 <? length (write_queue sv))%nat then 1 else 0 in
  let '(mt_len, queue_len) :=
    match write_queue sv with
    | head :: _ => (blen head, Z.of_nat (length (write_queue sv)) - 1)
    | [] => (0, 0)
    end in
  concat
    [ b"+SBDIX: ";
      str_of_int (mo_status sv); b",";
      str_of_int (session_counter sv); b",";
      str_of_int mt_status; b",";
      str_of_int (mt_msn sv); b",";
      str_of_int mt_len; b",";
      str_of_int queue_len;
      blank_line ].

Definition is_cmd (c cmd : bytes) : bool := bytes_eqb cmd (c ++ [CR]).

Definition check_incoming (sv : server) (cmd : bytes) : reply :=
  if is_cmd Command.PING cmd then
    Returned sv (echo_command sv cmd ++ [ok_line])
  else if is_cmd Command.ECHO_ON cmd then
    let sv := set_option sv "echo" true in
    Returned sv (echo_command sv cmd ++ [ok_line])
  else if is_cmd Command.ECHO_OFF cmd then
    Returned (set_option sv "echo" false) [ok_line]
  else if is_cmd Command.FLOW_CONTROL_ON cmd then
    let sv := set_option sv "flow_control" true in
    Returned sv (echo_command sv cmd ++ [ok_line])
  else if is_cmd Command.FLOW_CONTROL_OFF cmd then
    let sv := set_option sv "flow_control" false in
    Returned sv (echo_command sv cmd ++ [ok_line])
  else if is_cmd Command.RING_ALERTS_ON cmd then
    let sv := set_option sv "ring_alerts" true in
    Returned sv (echo_command sv cmd ++ [ok_line])
  else if is_cmd Command.RING_ALERTS_OFF cmd then
    let sv := set_option sv "ring_alerts" false in
    Returned sv (echo_command sv cmd ++ [ok_line])
  else if is_cmd Command.REPEAT_LAST_COMMAND cmd then
    let echoed := echo_command sv cmd in
    match rev (read_history sv) with
    | [] => Raised sv echoed IndexError
    | _ :: older =>
        let sv := set_read_history sv (rev older) in
        match older with
        | [] => Raised sv echoed IndexError
        | previous :: _ =>
            Returned sv (echoed ++ [previous ++ blank_line; ok_line])
        end
    end
  else if is_cmd Command.RETURN_ECHO cmd then
    let value := if is_echo sv then 1 else 0 in
    Returned sv (echo_command sv cmd
                 ++ [str_of_int value ++ blank_line; ok_line])
  else if is_cmd Command.RETURN_IDENTIFICATION cmd then
    Returned sv (echo_command sv cmd ++ [b"4" ++ blank_line; ok_line])
  else if is_cmd Command.SYSTEM_TIME cmd then Unmodelled
  else if is_cmd Command.SIGNAL_QUALITY cmd then
    Returned sv (echo_command sv cmd
                 ++ [b"+CSQ:" ++ str_of_int (signal_quality sv)
                       ++ blank_line;
                     ok_line])
  else if is_cmd Command.SERIAL_NUMBER cmd then
    Returned sv (echo_command sv cmd
                 ++ [serial_number sv ++ blank_line; ok_line])
  else if is_cmd Command.CLEAR_MO_BUFFER cmd then
    Returned sv (echo_command sv cmd ++ [b"0" ++ blank_line; ok_line])
  else if is_cmd Command.CHECK_RING cmd then
    Returned sv (echo_command sv cmd
                 ++ [b"+CRIS: " ++ b"0,"
                       ++ str_of_int (Z.of_nat (length (write_queue sv)))
                       ++ blank_line;
                     ok_line])
  else if is_cmd Command.SESSION cmd then
    let msg := session_line sv in
    let sv' :=
      set_counters sv
        (Z.land (session_counter sv + 1) 65535)
        (Z.land (mt_msn sv + 1) 65535)
        0 in
    Returned sv' (echo_command sv cmd ++ [msg; ok_line])
  else if is_cmd Command.READ_BINARY cmd then
    match write_queue sv with
    | msg :: rest =>
        let sv := set_write_queue sv rest in
        match to_bytes_big 2 (blen msg), calc_checksum msg with
        | Some msg_len, Some checksum =>
            Returned sv
              [concat [Command.READ_BINARY_RECEIVE; msg_len; msg; checksum;
                       blank_line];
               ok_line]
        | _, _ => Raised sv [] OverflowError
        end
    | [] => Returned sv [ok_line]
    end
  else if startswith Command.WRITE_BINARY cmd then Unmodelled
  else if bool_decide (last (read_buf sv) = Some CR) then
    Returned sv (echo_command sv cmd ++ [ok_line])
  else Returned sv [].

Definition set_read_buf (sv : server) (v : bytes) : server :=
  {| options := options sv; serial_number := serial_number sv;
     session_counter := session_counter sv;
     signal_quality := signal_quality sv;
     read_history := read_history sv; mo_status := mo_status sv;
     mt_msn := mt_msn sv; read_buf := v;
     write_queue := write_queue sv |}.

(** [self._read_history] is a [deque(maxlen=10)]. *)
Definition history_append (h : list bytes) (x : bytes) : list bytes :=
  let h' := h ++ [x] in drop (length h' - 10)%nat h'.

(** The [while] loop of the emulator's [check_io]: every round cuts the
    buffer at its first carriage return and dispatches the piece before
    it.  A round shortens the buffer, so [length buf] rounds are enough
    for a buffer [buf]. *)
Fixpoint dispatch_lines (fuel : nat) (sv : server) (written : list bytes)
  : reply :=
  match fuel with
  | O => Returned sv written
  | S f =>
      if contains [CR] (read_buf sv) then
        let idx := find [CR] (read_buf sv) in
        let data := upto_idx (read_buf sv) idx in
        let sv := set_read_buf sv (from_idx (read_buf sv) (idx + 1)) in
        match check_incoming sv (data ++ [CR]) with
        | Returned sv' more => dispatch_lines f sv' (written ++ more)
        | Raised sv' more e => Raised sv' (written ++ more) e
        | Unmodelled => Unmodelled
        end
      else Returned sv written
  end.

Definition check_io (sv : server) (message : bytes) : reply :=
  let sv :=
    if negb (bytes_eqb message [])
    then set_read_history sv (history_append (read_history sv) message)
    else sv in
  let sv := set_read_buf sv (read_buf sv ++ message) in
  dispatch_lines (length (read_buf sv)) sv [].

End Server.

(** ** Runs of the engine

    [listen] feeds every chunk it reads to [check_io]; an exception that
    escapes from [check_io] ends the listener.  A run is recorded as the
    list of its steps: the engine before the call, the chunk, and what the
    call left behind. *)

Fixpoint run (st : engine) (messages : list bytes)
  : list (engine * bytes * outcome) :=
  match messages with
  | [] => []
  | message :: more =>
      let o := check_io st message in
      (st, message, o)
        :: match raised o with
           | None => run (after o) more
           | Some _ => []
           end
  end.

(** The step pops the head [cmd] of the sequential queue, makes it the
    pending command and writes it to the port. *)
Definition promotes (st : engine) (o : outcome) (cmd : bytes) : Prop :=
  sequential_write_queue st = cmd :: sequential_write_queue (after o)
  ∧ previous_command (after o) = Some cmd
  ∧ fired o = [SerialWrite (cmd ++ [CR])].

(** The step pops nothing: the queue only receives appends, and the
    register is left alone or cleared. *)
Definition queue_kept (st : engine) (o : outcome) : Prop :=
  (∃ added,
      sequential_write_queue (after o)
      = fold_left deque_append added (sequential_write_queue st))
  ∧ (previous_command (after o) = previous_command st
     ∨ previous_command (after o) = None).

(** [grows st st']: the register is untouched and the sequential queue has
    only received appends. *)
Definition grows (st st' : engine) : Prop :=
  previous_command st' = previous_command st
  ∧ ∃ added,
      sequential_write_queue st'
      = fold_left deque_append added (sequential_write_queue st).

Definition step_disciplined (step : engine * bytes * outcome) : Prop :=
  let '(st, message, o) := step in
  (∃ cmd,
      promotes st o cmd
      ∧ truthy (previous_command st) = false
      ∧ contains Command.RING (read_buf st ++ message) = false)
  ∨ queue_kept st o.


(** ** The frame of a mobile-terminated message, in the words of the
    wire protocol *)

(** Two bytes, big-endian, of the length. *)
Definition len_be2 (content : bytes) : bytes := be_digits 2 (blen content).

(** Two bytes, big-endian, of the sum of the content bytes truncated to 16
    bits. *)
Definition checksum (content : bytes) : bytes :=
  be_digits 2 (bsum content mod 65536).

Definition frame (content : bytes) : bytes :=
  Command.READ_BINARY_RECEIVE ++ len_be2 content ++ content
  ++ checksum content.

(** ** The clear-buffer verdict, in the words of the specification: the
    echoes of all three clear-buffer commands are removed before the
    payload is stripped and compared with [b'0']. *)
Definition clear_verdict_spec (data : bytes) : bool :=
  bytes_eqb
    (strip (replace Command.CLEAR_BOTH_BUFFERS []
              (replace Command.CLEAR_MT_BUFFER []
                 (replace Command.CLEAR_MO_BUFFER [] data))))
    (b"0").








(** An engine with the default options and nothing queued, waiting for the
    answer to [cmd] with [buf] already read. *)
Definition waiting (cmd : option bytes) (buf : bytes) : engine :=
  {| options :=
       {[ "echo"%string := true; "ring_alerts"%string := true;
          "auto_read"%string := true; "flow_control"%string := false;
          "telephone"%string := false ]};
     serial_number := [];
     last_mt_queued := 0;
     last_mt_queued_retry := 0;
     read_buf := buf;
     write_queue := [];
     sequential_write_queue := [];
     previous_command := cmd |}.

(** * Further parts of the code *)

(** Byte strings made of blanks only, and byte strings without blank
    (blank as [bytes.strip()] understands it). *)
Definition is_blank (s : bytes) : Prop := Forall (fun c => is_space c = true) s.

Definition solid (s : bytes) : Prop := Forall (fun c => is_space c = false) s.

(** ASCII text. *)
Definition ascii_only (s : bytes) : Prop := Forall (fun c => byte_val c < 128) s.

(** Printable ASCII without the space: what the emulator's numbers and
    separators are made of. *)
Definition printable (s : bytes) : Prop :=
  Forall (fun c => 33 <= byte_val c <= 126) s.

(** ** More of Python's number formatting: [hex] and [bytes.zfill] *)










(** An emulator as its constructor leaves it, with the given echo option,
    serial number and messages waiting for the host. *)
Definition emulator (echo : bool) (sn : bytes) (queue : list bytes)
  : Server.server :=
  {| Server.options :=
       {[ "echo"%string := echo; "ring_alerts"%string := true;
          "auto_read"%string := true; "flow_control"%string := false;
          "telephone"%string := false ]};
     Server.serial_number := sn;
     Server.session_counter := 0;
     Server.signal_quality := 5;
     Server.read_history := [];
     Server.mo_status := 0;
     Server.mt_msn := 0;
     Server.read_buf := [];
     Server.write_queue := queue |}.

(** ** Requests of the host ([ping], [send_message])

    [connected] is the answer of [is_port_connected()]. *)





Definition set_options (st : engine) (v : gmap string bool) : engine :=
  {| options := v; serial_number := serial_number st;
     last_mt_queued := last_mt_queued st;
     last_mt_queued_retry := last_mt_queued_retry st;
     read_buf := read_buf st; write_queue := write_queue st;
     sequential_write_queue := sequential_write_queue st;
     previous_command := previous_command st |}.

Definition set_option (st : engine) (option_name : string) (value : bool)
  : engine :=
  set_options st (<[lower option_name := value]> (options st)).

(** ** [IridiumServer.write_serial]: a message for the host is queued and
    announced by a ring. *)
Definition server_write_serial (sv : Server.server) (msg : bytes)
  : Server.reply :=
  if 270 <? blen msg then
    Server.Raised sv []
      (IridiumError "Message length must be no more than 270 bytes.")
  else
    Server.Returned
      (Server.set_write_queue sv (deque_append (Server.write_queue sv) msg))
      [b"SBDRING" ++ [LF]].

(** The commands [check_incoming] of the emulator has a branch of their
    own for, apart from the write-binary prefix. *)
Definition answered : list bytes :=
  [ Command.PING; Command.ECHO_ON; Command.ECHO_OFF;
    Command.FLOW_CONTROL_ON; Command.FLOW_CONTROL_OFF;
    Command.RING_ALERTS_ON; Command.RING_ALERTS_OFF;
    Command.REPEAT_LAST_COMMAND; Command.RETURN_ECHO;
    Command.RETURN_IDENTIFICATION; Command.SYSTEM_TIME;
    Command.SIGNAL_QUALITY; Command.SERIAL_NUMBER;
    Command.CLEAR_MO_BUFFER; Command.CHECK_RING; Command.SESSION;
    Command.READ_BINARY ].

(** The sequential queue holds no more than its [maxlen]. *)
Definition bounded (st : engine) : Prop :=
  (length (sequential_write_queue st) <= maxlen)%nat.


(** ** Facts about the bytes primitives *)

Lemma byte_eqb_eq (c d : byte) : Byte.eqb c d = true ↔ c = d.
Proof.
  split; [apply Byte.byte_dec_bl | apply Byte.byte_dec_lb].
Qed.


Lemma startswith_spec (sub s : bytes) :
  startswith sub s = true ↔ ∃ rest, s = sub ++ rest.
Proof.
  revert s. induction sub as [|c sub IH]; intros s; simpl.
  - split; [intros _; by exists s | done].
  - destruct s as [|d s].
    + split; [done | intros [rest H]; discriminate].
    + rewrite andb_true_iff, byte_eqb_eq, IH. split.
      * intros [-> [rest ->]]. by exists rest.
      * intros [rest H]. injection H as -> ->. split; [done | by exists rest].
Qed.

Lemma startswith_app (sub rest : bytes) : startswith sub (sub ++ rest) = true.
Proof. apply startswith_spec. by exists rest. Qed.

Lemma find_from_head (sub s : bytes) (i : Z) :
  startswith sub s = true → find_from sub s i = i.
Proof. destruct s; simpl; intros ->; done. Qed.

Lemma find_from_range (sub s : bytes) (i : Z) :
  find_from sub s i = -1
  ∨ (i <= find_from sub s i <= i + Z.of_nat (length s)).
Proof.
  revert i. induction s as [|c s IH]; intros i; cbn [find_from].
  - destruct (startswith sub []); simpl; lia.
  - destruct (startswith sub (c :: s)); [simpl; lia|].
    destruct (IH (i + 1)) as [->|H]; [by left|].
    right. rewrite length_cons. lia.
Qed.

(** A successful search splits the string around the match. *)
Lemma find_from_split (sub s : bytes) (i k : Z) :
  0 <= i → find_from sub s i = k → i <= k →
  s = take (Z.to_nat (k - i)) s ++ sub
      ++ drop (Z.to_nat (k - i) + length sub) s.
Proof.
  revert i. induction s as [|c s IH]; intros i Hi.
  - cbn [find_from]. destruct (startswith sub []) eqn:E.
    + intros <- _. apply startswith_spec in E as [rest E].
      symmetry in E. apply app_eq_nil in E as [-> ->].
      by rewrite take_nil, drop_nil.
    + intros <- ?. lia.
  - cbn [find_from]. destruct (startswith sub (c :: s)) eqn:E.
    + intros <- _. replace (Z.to_nat (i - i)) with 0%nat by lia.
      apply startswith_spec in E as [rest E]. rewrite E. simpl.
      by rewrite drop_app_length.
    + intros Hk Hle.
      assert (Hfind : i + 1 <= k).
      { destruct (find_from_range sub s (i + 1)); lia. }
      assert (Hi' : 0 <= i + 1) by lia.
      specialize (IH (i + 1) Hi' Hk Hfind).
      replace (Z.to_nat (k - i)) with (S (Z.to_nat (k - (i + 1)))) by lia.
      simpl. by rewrite <- IH.
Qed.

Lemma contains_split (sub s : bytes) :
  contains sub s = true →
  s = upto_idx s (find sub s) ++ sub
      ++ from_idx s (find sub s + blen sub).
Proof.
  unfold contains, upto_idx, from_idx, find, blen. intros H.
  apply Z.leb_le in H.
  pose proof (find_from_split sub s 0 (find_from sub s 0) ltac:(lia) eq_refl H)
    as Hs.
  rewrite Z.sub_0_r in Hs.
  replace (Z.to_nat (find_from sub s 0 + Z.of_nat (length sub)))
    with (Z.to_nat (find_from sub s 0) + length sub)%nat by lia.
  exact Hs.
Qed.

Lemma find_prefix (sub rest : bytes) : find sub (sub ++ rest) = 0.
Proof. apply find_from_head, startswith_app. Qed.

Lemma byte_val_range (c : byte) : 0 <= byte_val c <= 255.
Proof. unfold byte_val. pose proof (Byte.to_N_bounded c). lia. Qed.

Lemma byte_val_of_Z (z : Z) : 0 <= z <= 255 → byte_val (byte_of_Z z) = z.
Proof.
  intros Hz. unfold byte_val, byte_of_Z.
  pose proof (Byte.to_of_N_option_map (Z.to_N z)) as H.
  destruct (Byte.of_N (Z.to_N z)) as [c|]; simpl in H.
  - destruct (Z.to_N z <=? 255)%N; [|discriminate].
    injection H as ->. lia.
  - destruct (Z.to_N z <=? 255)%N eqn:E; [discriminate|].
    apply N.leb_gt in E. lia.
Qed.

Lemma length_be_digits (n : nat) (x : Z) : length (be_digits n x) = n.
Proof.
  revert x. induction n as [|n IH]; intros x; simpl; [done|].
  rewrite length_app, IH. simpl. lia.
Qed.

Lemma from_bytes_big_app (s t : bytes) :
  from_bytes_big (s ++ t)
  = fold_left (fun acc c => acc * 256 + byte_val c) t (from_bytes_big s).
Proof. unfold from_bytes_big. apply fold_left_app. Qed.

(** Big-endian encoding and decoding are inverse on the digits that fit. *)
Lemma from_bytes_big_be_digits (n : nat) (x : Z) :
  0 <= x < 256 ^ Z.of_nat n → from_bytes_big (be_digits n x) = x.
Proof.
  revert x. induction n as [|n IH]; intros x Hx.
  - simpl in *. unfold from_bytes_big. simpl. lia.
  - cbn [be_digits]. rewrite from_bytes_big_app. cbn [fold_left].
    rewrite Nat2Z.inj_succ, Z.pow_succ_r in Hx by lia.
    rewrite IH, byte_val_of_Z.
    + rewrite Z.mul_comm. symmetry. apply Z.div_mod. lia.
    + pose proof (Z.mod_pos_bound x 256). lia.
    + split; [apply Z.div_pos; lia | apply Z.div_lt_upper_bound; lia].
Qed.

Lemma bsum_range (s : bytes) : 0 <= bsum s <= 255 * Z.of_nat (length s).
Proof.
  induction s as [|c s IH]; simpl; [lia|].
  pose proof (byte_val_range c). fold (bsum s). lia.
Qed.

(** The source's checksum, the low two of four big-endian bytes, is the
    16-bit truncation of the sum. *)
Lemma calc_checksum_spec (content : bytes) :
  bsum content < 256 ^ 4 → calc_checksum content = Some (checksum content).
Proof.
  intros Hlt. unfold calc_checksum, to_bytes_big, checksum.
  pose proof (bsum_range content) as [Hge _].
  change (Z.of_nat 4) with 4.
  destruct (Z.leb_spec 0 (bsum content)); [|lia].
  destruct (Z.ltb_spec (bsum content) (256 ^ 4)); [|lia].
  simpl. f_equal. set (s := bsum content).
  assert (H1 : s / 256 mod 256 = s mod 65536 / 256 mod 256)
    by (clear; Z.div_mod_to_equations; lia).
  assert (H2 : s mod 256 = s mod 65536 mod 256)
    by (clear; Z.div_mod_to_equations; lia).
  by rewrite H1, H2.
Qed.

(** ** Binary framing *)

Lemma after_echo_frame (rest : bytes) :
  after_echo (Command.READ_BINARY_RECEIVE ++ rest) = rest.
Proof.
  unfold after_echo. rewrite find_prefix. reflexivity.
Qed.

Lemma parse_read_binary_frame (content : bytes) :
  blen content < 65536 →
  parse_read_binary (frame content)
  = Ok (blen content, content, checksum content, checksum content).
Proof.
  intros Hlen. unfold parse_read_binary, frame.
  rewrite after_echo_frame.
  assert (Hl2 : length (len_be2 content) = 2%nat) by apply length_be_digits.
  assert (Hmsg : from_bytes_big
                   (upto_idx (len_be2 content ++ content ++ checksum content) 2)
                 = blen content).
  { unfold upto_idx. change (Z.to_nat 2) with 2%nat.
    rewrite take_app_length' by done.
    apply from_bytes_big_be_digits. unfold blen in *.
    change (256 ^ Z.of_nat 2) with 65536. lia. }
  rewrite Hmsg. unfold slice, blen.
  replace (Z.to_nat (Z.of_nat (length content) + 2) - Z.to_nat 2)%nat
    with (length content) by lia.
  replace (Z.to_nat (Z.of_nat (length content) + 2 + 2)
           - Z.to_nat (Z.of_nat (length content) + 2))%nat
    with 2%nat by lia.
  replace (Z.to_nat (Z.of_nat (length content) + 2))
    with (2 + length content)%nat by lia.
  change (Z.to_nat 2) with 2%nat.
  assert (Hc : length (checksum content) = 2%nat) by apply length_be_digits.
  assert (Hd1 : drop 2 (len_be2 content ++ content ++ checksum content)
                = content ++ checksum content)
    by (rewrite <- Hl2; apply drop_app_length).
  assert (Hd2 : drop (2 + length content)
                  (len_be2 content ++ content ++ checksum content)
                = checksum content).
  { rewrite <- drop_drop, Hd1. apply drop_app_length. }
  rewrite Hd1, Hd2, take_app_length.
  rewrite firstn_all2 by (by rewrite Hc).
  rewrite Hc. simpl.
  rewrite calc_checksum_spec; [done|].
  pose proof (bsum_range content). unfold blen in Hlen.
  change (256 ^ 4) with 4294967296. lia.
Qed.

(** C2.  Framing round trip: for every content of at most 340 bytes,
    parsing [AT+SBDRB\r], the two length bytes, the content and its
    checksum gives back the length, the content, and the checksum twice
    (once as read from the frame, once as recomputed), where the checksum
    is the 16-bit truncation of the byte sum in two big-endian bytes. *)
Theorem parse_read_binary_round_trip (content : bytes) :
  blen content <= 340 →
  parse_read_binary (frame content)
  = Ok (blen content, content, checksum content, checksum content).
Proof.
  intros Hlen. apply parse_read_binary_frame. lia.
Qed.

Lemma parse_read_binary_round_trip_hello :
  blen (b"hello") <= 340
  ∧ parse_read_binary (frame (b"hello"))
    = Ok (5, b"hello", [x02; x14], [x02; x14]).
Proof.
  split.
  - by vm_compute.
  - apply (parse_read_binary_round_trip (b"hello")). by vm_compute.
Defined.

(** ** The scenarios of the specification *)

Example system_time_scenario :
  parse_system_time
    ([CR; LF] ++ b"-MSSTM: 000186a0" ++ [CR; LF; CR; LF] ++ b"OK" ++ [CR; LF])
  = Ok 100000.
Proof. by vm_compute. Qed.

Example signal_quality_scenario :
  parse_signal_quality
    (b"AT+CSQ" ++ [CR; CR; LF] ++ b"+CSQ:3" ++ [CR; LF; CR; LF]
     ++ b"OK" ++ [CR; LF])
  = Ok 3.
Proof. by vm_compute. Qed.

Example binary_receive_scenario :
  let o := check_io (waiting (Some Command.READ_BINARY) [])
             (b"AT+SBDRB" ++ [CR; x00; x05] ++ b"hello" ++ [x02; x14]
              ++ [CR; LF] ++ b"OK" ++ [CR; LF]) in
  fired o
  = [MessageReceived (b"hello");
     CommandFinished Command.READ_BINARY true
       (b"AT+SBDRB" ++ [CR; x00; x05] ++ b"hello" ++ [x02; x14] ++ [CR; LF])]
  ∧ previous_command (after o) = None
  ∧ read_buf (after o) = [CR; LF].
Proof. by vm_compute. Qed.

(** Two ring alerts in a row queue one session only. *)
Example ring_scenario :
  let o1 := check_io (waiting None []) (b"SBDRING" ++ [CR; LF]) in
  let o2 := check_io (after o1) (b"SBDRING" ++ [CR; LF]) in
  sequential_write_queue (after o1) = [Command.SESSION]
  ∧ sequential_write_queue (after o2) = [Command.SESSION]
  ∧ fired o1 = [] ∧ fired o2 = [].
Proof. by vm_compute. Qed.

(** ** The pending-command register *)

(** C10.  An assignment through the [previous_command] setter while a
    command [c] is pending reports [command_finished(c, True)] when the new
    value is [None] and [command_finished(c, False)] when it is a command;
    the callback receives the old command, and the register then holds the
    new value.  While nothing is pending (the register is [None], or holds
    the empty byte string, which the engine treats alike) no callback
    fires. *)
Theorem previous_command_setter_reports (st : engine) (command : option bytes) :
  (∀ c, previous_command st = Some c → c ≠ [] →
        previous_command_setter st command
        = (assign_previous_command st command,
           [CommandFinished c
              match command with None => true | Some _ => false end
              []]))
  ∧ (truthy (previous_command st) = false →
     previous_command_setter st command
     = (assign_previous_command st command, [])).
Proof.
  unfold previous_command_setter. split.
  - intros c -> Hc. destruct c as [|c0 c]; [done|]. by destruct command.
  - intros Hidle. by destruct (previous_command st) as [[|c0 c]|].
Qed.

Lemma previous_command_setter_reports_ping :
  (Command.PING ≠ []
   ∧ previous_command_setter (waiting (Some Command.PING) []) None
     = (waiting None [], [CommandFinished Command.PING true []])
   ∧ previous_command_setter (waiting (Some Command.PING) [])
       (Some Command.SESSION)
     = (waiting (Some Command.SESSION) [],
        [CommandFinished Command.PING false []]))
  ∧ (truthy (previous_command (waiting None [])) = false
     ∧ previous_command_setter (waiting None []) (Some Command.PING)
       = (waiting (Some Command.PING) [], [])).
Proof.
  split; [split; [done|split]|split; [done|]].
  - apply (proj1 (previous_command_setter_reports
                    (waiting (Some Command.PING) []) None)); done.
  - apply (proj1 (previous_command_setter_reports
                    (waiting (Some Command.PING) [])
                    (Some Command.SESSION)) Command.PING); done.
  - apply (proj2 (previous_command_setter_reports
                    (waiting None []) (Some Command.PING))); done.
Defined.

(** ** The command catalog *)

(** C5 (what the code does).  [is_command] never returns: the generator
    behind it asks a [str] name whether it starts with the [bytes] value
    [b"_"], and the [TypeError] of that very first test escapes, whatever
    the data. *)
Theorem is_command_raises (data : bytes) :
  Command.is_command data = Raise TypeError.
Proof. reflexivity. Qed.

(** Even with a [str] underscore in that test, a command followed by a
    carriage return would not be recognised: the second membership test
    appends [\r] to the data instead of removing it. *)
Lemma is_command_with_str_prefix :
  Command.is_command_with (Command.PyStr "_") Command.PING = Ok true
  ∧ Command.is_command_with (Command.PyStr "_") (Command.PING ++ [CR])
    = Ok false
  ∧ Command.is_command_with (Command.PyStr "_") Command.OK = Ok false.
Proof. by vm_compute. Qed.

(** ** The emulator's session reply *)


Lemma check_incoming_read_buf (sv sv' : Server.server) (cmd : bytes)
  (written : list bytes) :
  Server.check_incoming sv cmd = Server.Returned sv' written →
  Server.read_buf sv' = Server.read_buf sv.
Proof.
  unfold Server.check_incoming.
  repeat match goal with
         | |- context [if ?c then _ else _] => destruct c
         | |- context [match ?l with [] => _ | _ :: _ => _ end] => destruct l
         | |- context [match ?o with Some _ => _ | None => _ end] => destruct o
         end;
    intros H; try discriminate; injection H as <- _; reflexivity.
Qed.

(** The emulator's loop stops because its buffer holds no further
    carriage return, never for lack of fuel. *)
Lemma dispatch_lines_exit (fuel : nat) :
  ∀ (sv sv' : Server.server) (written written' : list bytes),
  (length (Server.read_buf sv) <= fuel)%nat →
  Server.dispatch_lines fuel sv written = Server.Returned sv' written' →
  contains [CR] (Server.read_buf sv') = false.
Proof.
  induction fuel as [|fuel IH]; intros sv sv' written written' Hlen.
  - cbn [Server.dispatch_lines]. intros H. injection H as <- _.
    destruct (Server.read_buf sv); [done | simpl in Hlen; lia].
  - cbn [Server.dispatch_lines].
    destruct (contains [CR] (Server.read_buf sv)) eqn:Hcr.
    + cbv zeta.
      destruct (Server.check_incoming _ _) as [sv1 more| |] eqn:Hin;
        [|done..].
      apply check_incoming_read_buf in Hin.
      cbn [Server.read_buf Server.set_read_buf] in Hin.
      apply IH. rewrite Hin.
      pose proof (contains_split [CR] (Server.read_buf sv) Hcr) as Hsplit.
      apply (f_equal length) in Hsplit. rewrite !length_app in Hsplit.
      change (blen [CR]) with 1 in Hsplit. cbn [length] in Hsplit. lia.
    + intros H. by injection H as <- _.
Qed.


(** The same through the emulator's [check_io], when no unfinished line
    is waiting in its buffer: the chunk also enters the read history. *)
Lemma session_reply_check_io (sv : Server.server) :
  Server.read_buf sv = [] →
  Server.check_io sv (Command.SESSION ++ [CR])
  = Server.check_incoming
      (Server.set_read_history sv
         (Server.history_append (Server.read_history sv)
            (Command.SESSION ++ [CR])))
      (Command.SESSION ++ [CR]).
Proof.
  intros Hbuf. destruct sv. cbn [Server.read_buf] in Hbuf. subst.
  reflexivity.
Qed.

Example session_reply_one_queued :
  Server.check_incoming
    {| Server.options := {[ "echo"%string := false ]};
       Server.serial_number := b"12345";
       Server.session_counter := 65535;
       Server.signal_quality := 5;
       Server.read_history := [];
       Server.mo_status := 1;
       Server.mt_msn := 7;
       Server.read_buf := [];
       Server.write_queue := [b"hello"] |}
    (b"AT+SBDIX" ++ [CR])
  = Server.Returned
      {| Server.options := {[ "echo"%string := false ]};
         Server.serial_number := b"12345";
         Server.session_counter := 0;
         Server.signal_quality := 5;
         Server.read_history := [];
         Server.mo_status := 0;
         Server.mt_msn := 8;
         Server.read_buf := [];
         Server.write_queue := [b"hello"] |}
      [b"+SBDIX: 1,65535,1,7,5,0" ++ [CR; LF; CR; LF]; b"OK" ++ [CR; LF]].
Proof. by vm_compute. Qed.

(** ** Dispatch of [check_io] *)

Lemma check_io_pending (st : engine) (message cmd : bytes) :
  previous_command st = Some cmd → cmd ≠ [] →
  check_io st message
  = check_pending_command cmd (set_read_buf st (read_buf st ++ message)).
Proof.
  intros Hprev Hcmd. unfold check_io, pending_command.
  cbn [previous_command set_read_buf]. rewrite Hprev.
  by destruct cmd.
Qed.

Lemma check_io_idle (st : engine) (message : bytes) :
  truthy (previous_command st) = false →
  check_io st message
  = check_unsolicited (set_read_buf st (read_buf st ++ message)).
Proof.
  intros Hidle. unfold check_io, pending_command.
  cbn [previous_command set_read_buf].
  by destruct (previous_command st) as [[|c cs]|].
Qed.


(** ** Clear-buffer responses *)

(** C6 (what the code does).  With echo on, the answer to [AT+SBDD1]
    carries the echo of that command.  The engine removes the echo of
    [AT+SBDD0] (twice) and of [AT+SBDD2], but not of [AT+SBDD1], so what
    is left does not strip to [b'0'] and the command is reported as
    failed, although the modem answered [0]; removing all three echoes
    would have accepted it. *)
Theorem clear_mt_buffer_echo_rejected :
  let data := b"AT+SBDD1" ++ [CR; CR; LF] ++ b"0" ++ [CR; LF; CR; LF] in
  let o := check_io (waiting (Some Command.CLEAR_MT_BUFFER) [])
             (data ++ b"OK" ++ [CR; LF]) in
  fired o = [CommandFinished Command.CLEAR_MT_BUFFER false data]
  ∧ previous_command (after o) = None
  ∧ clear_verdict_spec data = true.
Proof. by vm_compute. Qed.

(** The sibling commands are accepted on the same answer. *)
Example clear_mo_buffer_echo_accepted :
  let data := b"AT+SBDD0" ++ [CR; CR; LF] ++ b"0" ++ [CR; LF; CR; LF] in
  let o := check_io (waiting (Some Command.CLEAR_MO_BUFFER) [])
             (data ++ b"OK" ++ [CR; LF]) in
  fired o = [CommandFinished Command.CLEAR_MO_BUFFER true data]
  ∧ clear_verdict_spec data = true.
Proof. by vm_compute. Qed.

Example clear_both_buffers_echo_accepted :
  let data := b"AT+SBDD2" ++ [CR; CR; LF] ++ b"0" ++ [CR; LF; CR; LF] in
  let o := check_io (waiting (Some Command.CLEAR_BOTH_BUFFERS) [])
             (data ++ b"OK" ++ [CR; LF]) in
  fired o = [CommandFinished Command.CLEAR_BOTH_BUFFERS true data]
  ∧ clear_verdict_spec data = true.
Proof. by vm_compute. Qed.

(** ** Deferred binary reads *)

(** Whatever the loop moves over to [data], the bytes stay the same. *)
Lemma gather_join (fuel : nat) (data buf : bytes) :
  let '(data', buf') := gather fuel data buf in
  data' ++ Command.OK ++ buf' = data ++ Command.OK ++ buf.
Proof.
  revert data buf. induction fuel as [|fuel IH]; intros data buf; [done|].
  cbn [gather].
  destruct (negb (has_read_binary_data data) && contains Command.OK buf)
    eqn:E; [|done].
  apply andb_true_iff in E as [_ Hok].
  specialize (IH (data ++ Command.OK ++ upto_idx buf (find Command.OK buf))
                 (from_idx buf (find Command.OK buf + 2))).
  destruct (gather fuel _ _) as [data' buf'].
  rewrite IH, <- !app_assoc. do 2 f_equal.
  symmetry. apply (contains_split Command.OK buf Hok).
Qed.

(** [length buf] rounds are enough: the loop stops because its condition
    fails, never for lack of fuel. *)
Lemma gather_exit (fuel : nat) (data buf : bytes) :
  (length buf <= fuel)%nat →
  let '(data', buf') := gather fuel data buf in
  has_read_binary_data data' = true ∨ contains Command.OK buf' = false.
Proof.
  revert data buf. induction fuel as [|fuel IH]; intros data buf Hlen.
  - destruct buf; [|simpl in Hlen; lia]. by right.
  - cbn [gather].
    destruct (has_read_binary_data data) eqn:Hhas; [by left|].
    destruct (contains Command.OK buf) eqn:Hok; [|by right].
    cbn [negb andb]. apply IH.
    pose proof (contains_split Command.OK buf Hok) as Hsplit.
    apply (f_equal length) in Hsplit. rewrite !length_app in Hsplit.
    change (length Command.OK) with 2%nat in Hsplit.
    change (blen Command.OK) with 2 in Hsplit. lia.
Qed.

(** C4.  With READ_BINARY pending and an [OK] in the buffer: when the data
    gathered over all the [OK] markers of the buffer is still no complete
    frame, the buffer holds no further [OK], and the step leaves the engine
    as it was, with the buffer holding exactly its previous bytes (the old
    buffer and the new chunk) and READ_BINARY still pending; nothing is
    parsed and no callback of the sink is called (the only effect is the
    source's diagnostic [print]). *)
Theorem read_binary_deferred (st : engine) (message data rest : bytes) :
  let buf := read_buf st ++ message in
  let idx := find Command.OK buf in
  previous_command st = Some Command.READ_BINARY →
  contains Command.OK buf = true →
  gather (length (from_idx buf (idx + 2))) (upto_idx buf idx)
         (from_idx buf (idx + 2)) = (data, rest) →
  has_read_binary_data data = false →
  contains Command.OK rest = false
  ∧ check_io st message
    = Outcome (set_read_buf st buf) [Print "here" data buf] None
  ∧ previous_command (set_read_buf st buf) = Some Command.READ_BINARY.
Proof.
  intros buf idx Hprev Hok Hgather Hhas.
  pose proof (gather_exit _ (upto_idx buf idx) (from_idx buf (idx + 2))
                (Nat.le_refl _)) as Hexit.
  pose proof (gather_join (length (from_idx buf (idx + 2)))
                (upto_idx buf idx) (from_idx buf (idx + 2))) as Hjoin.
  rewrite Hgather in Hexit, Hjoin.
  split; [destruct Hexit; congruence|].
  split; [|exact Hprev].
  assert (Hbuf : data ++ Command.OK ++ rest = buf).
  { rewrite Hjoin. symmetry. apply (contains_split Command.OK buf Hok). }
  rewrite (check_io_pending st message Command.READ_BINARY Hprev) by done.
  unfold check_pending_command. cbn [read_buf set_read_buf].
  fold buf. rewrite Hok. fold idx.
  change (bytes_eqb Command.SYSTEM_TIME Command.READ_BINARY) with false.
  change (bytes_eqb Command.SERIAL_NUMBER Command.READ_BINARY) with false.
  change (bytes_eqb Command.SIGNAL_QUALITY Command.READ_BINARY) with false.
  change (bytes_eqb Command.CHECK_RING Command.READ_BINARY) with false.
  change (bytes_eqb Command.SESSION Command.READ_BINARY) with false.
  change (bytes_eqb Command.READ_BINARY Command.READ_BINARY) with true.
  cbv iota. rewrite Hgather, Hhas. cbn [negb]. rewrite Hbuf.
  reflexivity.
Qed.

Lemma read_binary_deferred_ok_inside_content :
  let st := waiting (Some Command.READ_BINARY) [] in
  let message := b"AT+SBDRB" ++ [CR; x00; x06] ++ b"xxOK" in
  let data := b"AT+SBDRB" ++ [CR; x00; x06] ++ b"xx" in
  let buf := read_buf st ++ message in
  let idx := find Command.OK buf in
  (previous_command st = Some Command.READ_BINARY
   ∧ contains Command.OK buf = true
   ∧ gather (length (from_idx buf (idx + 2))) (upto_idx buf idx)
            (from_idx buf (idx + 2)) = (data, [])
   ∧ has_read_binary_data data = false)
  ∧ check_io st message
    = Outcome (waiting (Some Command.READ_BINARY) message)
              [Print "here" data message] None.
Proof.
  split; [by vm_compute|].
  apply (read_binary_deferred
           (waiting (Some Command.READ_BINARY) [])
           (b"AT+SBDRB" ++ [CR; x00; x06] ++ b"xxOK")
           (b"AT+SBDRB" ++ [CR; x00; x06] ++ b"xx") []);
    by vm_compute.
Defined.

(** ** The sequential write queue is popped only when idle *)

Lemma grows_same (st st' : engine) :
  previous_command st' = previous_command st →
  sequential_write_queue st' = sequential_write_queue st →
  grows st st'.
Proof. intros Hp Hq. split; [done|]. by exists []. Qed.

Lemma grows_trans (st1 st2 st3 : engine) :
  grows st1 st2 → grows st2 st3 → grows st1 st3.
Proof.
  intros [Hp1 [a1 Hq1]] [Hp2 [a2 Hq2]]. split; [congruence|].
  exists (a1 ++ a2). by rewrite fold_left_app, <- Hq1.
Qed.

Lemma grows_queue_command (st : engine) (cmd : bytes) :
  grows st (queue_command st cmd).
Proof. split; [done|]. by exists [cmd]. Qed.

Create HintDb grows.
#[local] Hint Resolve grows_queue_command : grows.
#[local] Hint Extern 1 (grows _ _) => (apply grows_same; reflexivity) : grows.
#[local] Hint Extern 3 (grows _ _) =>
  (eapply grows_trans; [|apply grows_queue_command]) : grows.

Lemma on_system_time_grows (st : engine) (data : bytes) :
  grows st (on_system_time st data).1.1.
Proof.
  unfold on_system_time, parse_failed.
  destruct (parse_system_time data); auto with grows.
Qed.

Lemma on_serial_number_grows (st : engine) (data : bytes) :
  grows st (on_serial_number st data).1.1.
Proof.
  unfold on_serial_number, parse_failed.
  destruct (parse_serial_number data); auto with grows.
Qed.

Lemma on_signal_quality_grows (st : engine) (data : bytes) :
  grows st (on_signal_quality st data).1.1.
Proof.
  unfold on_signal_quality, parse_failed.
  destruct (parse_signal_quality data); auto with grows.
Qed.

Lemma on_check_ring_grows (st : engine) (data : bytes) :
  grows st (on_check_ring st data).1.1.
Proof.
  unfold on_check_ring, parse_failed.
  destruct (parse_check_ring data) as [[tri sri]|]; [|auto with grows].
  cbn [fst]. destruct (_ && _); auto with grows.
Qed.

Lemma session_outgoing_grows (st : engine) (s : session) :
  grows st (session_outgoing st s).1.
Proof.
  unfold session_outgoing. destruct (_ && _); auto with grows.
Qed.

Lemma session_incoming_grows (st : engine) (s : session) :
  grows st (session_incoming st s).1.1.
Proof.
  unfold session_incoming.
  destruct (_ && _); [cbn [fst]; auto with grows|].
  destruct (1 <? mt_status s); [|auto with grows].
  destruct (_ && _); auto with grows.
Qed.

Lemma on_session_grows (st : engine) (data : bytes) :
  grows st (on_session st data).1.1.
Proof.
  unfold on_session, parse_failed.
  destruct (parse_session data) as [s|]; [|auto with grows].
  pose proof (session_outgoing_grows st s) as H1.
  destruct (session_outgoing st s) as [st1 ev1]. cbn [fst] in H1.
  pose proof (session_incoming_grows st1 s) as H2.
  destruct (session_incoming st1 s) as [[st2 ev2] queued]. cbn [fst] in *.
  eapply grows_trans; [exact H1|]. eapply grows_trans; [exact H2|].
  destruct (_ && _); auto with grows.
Qed.

Lemma on_read_binary_grows (st : engine) (data : bytes) :
  grows st (on_read_binary st data).1.1.
Proof.
  unfold on_read_binary, parse_failed.
  destruct (parse_read_binary data) as [[[[msg_len content] cs] calc]|];
    [|auto with grows].
  destruct (_ && _); auto with grows.
Qed.

Lemma on_write_binary_grows (st : engine) (data : bytes) :
  grows st (on_write_binary st data).1.1.
Proof.
  unfold on_write_binary, parse_failed.
  destruct (parse_write_binary data); auto with grows.
Qed.

Lemma finish_kept (st0 st : engine) (cmd : bytes) (ev : list event)
  (ok : bool) (data : bytes) :
  grows st0 st → queue_kept st0 (finish st cmd ev ok data).
Proof.
  intros [_ Hq]. split; [exact Hq | by right].
Qed.

Lemma finish_handled_kept (st0 : engine) (h : handled) (cmd data : bytes) :
  grows st0 h.1.1 →
  queue_kept st0 (let '(st, ev, ok) := h in finish st cmd ev ok data).
Proof. destruct h as [[st ev] ok]. apply finish_kept. Qed.

Lemma grows_kept (st st' : engine) (ev : list event) (e : option exn) :
  grows st st' → queue_kept st (Outcome st' ev e).
Proof. intros [Hp Hq]. split; [exact Hq | by left]. Qed.

(** A handler that only grows the queue, followed by [finish]. *)
Ltac finish_after H01 handler_grows :=
  apply finish_handled_kept;
  eapply grows_trans; [exact H01 | apply handler_grows].

(** With a command pending nothing is popped. *)
Lemma check_pending_command_kept (cmd : bytes) (st : engine) :
  queue_kept st (check_pending_command cmd st).
Proof.
  unfold check_pending_command.
  destruct (contains Command.OK (read_buf st)).
  - set (st1 := set_read_buf st _).
    assert (H01 : grows st st1) by auto with grows.
    repeat match goal with
           | |- queue_kept _ (if ?c then _ else _) => destruct c
           end.
    + finish_after H01 on_system_time_grows.
    + finish_after H01 on_serial_number_grows.
    + finish_after H01 on_signal_quality_grows.
    + finish_after H01 on_check_ring_grows.
    + finish_after H01 on_session_grows.
    + destruct (gather _ _ _) as [data buf].
      destruct (negb (has_read_binary_data data)).
      * apply grows_kept. auto with grows.
      * apply finish_handled_kept.
        eapply grows_trans; [|apply on_read_binary_grows].
        auto with grows.
    + finish_after H01 on_write_binary_grows.
    + apply finish_kept. auto with grows.
    + apply finish_kept. auto with grows.
  - destruct (_ && _); [|apply grows_kept; auto with grows].
    destruct (startswith Command.WRITE_BINARY cmd).
    + cbn [write_queue set_read_buf]. destruct (write_queue st) as [|m rest].
      * apply grows_kept. auto with grows.
      * destruct (calc_checksum m).
        -- apply finish_kept. auto with grows.
        -- apply grows_kept. auto with grows.
    + apply finish_kept. auto with grows.
Qed.

(** One step of the engine either promotes the head of the sequential
    queue, with the register idle and no ring marker in the buffer, or
    pops nothing. *)
Lemma check_io_disciplined (st : engine) (message : bytes) :
  step_disciplined (st, message, check_io st message).
Proof.
  unfold step_disciplined.
  destruct (truthy (previous_command st)) eqn:Hidle.
  - right. destruct (previous_command st) as [[|c cs]|] eqn:Hprev; try done.
    rewrite (check_io_pending st message (c :: cs) Hprev) by done.
    pose proof (check_pending_command_kept (c :: cs)
                  (set_read_buf st (read_buf st ++ message))) as [Hq Hp].
    split; [exact Hq|]. cbn [previous_command set_read_buf] in Hp.
    exact Hp.
  - rewrite (check_io_idle st message Hidle). unfold check_unsolicited.
    cbn [read_buf set_read_buf sequential_write_queue].
    destruct (contains Command.RING (read_buf st ++ message)) eqn:Hring.
    + right. destruct (negb _); apply grows_kept; auto with grows.
    + destruct (sequential_write_queue st) as [|cmd rest] eqn:Hqueue.
      * right. destruct (last _); apply grows_kept; auto with grows.
      * left. exists cmd. by repeat split.
Qed.

(** The other direction: an idle engine with a queued command and no ring
    marker in its buffer promotes the head of the queue. *)
Lemma idle_step_promotes (st : engine) (message cmd : bytes)
  (rest : list bytes) :
  truthy (previous_command st) = false →
  contains Command.RING (read_buf st ++ message) = false →
  sequential_write_queue st = cmd :: rest →
  promotes st (check_io st message) cmd
  ∧ read_buf (after (check_io st message)) = []
  ∧ sequential_write_queue (after (check_io st message)) = rest.
Proof.
  intros Hidle Hring Hqueue. rewrite (check_io_idle st message Hidle).
  unfold check_unsolicited, promotes.
  cbn [read_buf set_read_buf sequential_write_queue].
  by rewrite Hring, Hqueue.
Qed.

(** C1.  In every run of the engine, every step either promotes the head
    of the sequential write queue (popped, made the pending command,
    written to the port followed by a carriage return), and then no
    command was pending before the step and the buffer of that step holds
    no SBDRING marker; or it pops nothing: the queue only receives appends
    and the register, a single optional command, is left as it was or
    cleared. *)
Theorem sequential_queue_popped_only_when_idle (st : engine)
  (messages : list bytes) :
  Forall step_disciplined (run st messages).
Proof.
  revert st. induction messages as [|message more IH]; intros st.
  - constructor.
  - cbn [run]. constructor; [apply check_io_disciplined|].
    destruct (raised (check_io st message)); [constructor | apply IH].
Qed.

(** ** The session handler *)







Example session_transferred_scenario :
  let o := check_io (waiting (Some Command.SESSION) [])
             (b"+SBDIX: 1, 42, 1, 7, 5, 2" ++ [CR; LF; CR; LF]
              ++ b"OK" ++ [CR; LF]) in
  fired o
  = [MessageTransferred 42;
     CommandFinished Command.SESSION true
       (b"+SBDIX: 1, 42, 1, 7, 5, 2" ++ [CR; LF; CR; LF])]
  ∧ sequential_write_queue (after o)
    = [Command.CLEAR_MO_BUFFER; Command.READ_BINARY; Command.SESSION].
Proof. by vm_compute. Qed.

Example session_failed_scenario :
  let o := check_io (waiting (Some Command.SESSION) [])
             (b"+SBDIX: 18, 42, 0, 0, 0, 0" ++ [CR; LF; CR; LF]
              ++ b"OK" ++ [CR; LF]) in
  fired o
  = [Notification "Error" "Message Transfer Failed!"
       "Connection lost (RF drop).";
     MessageTransferFailed 42;
     CommandFinished Command.SESSION true
       (b"+SBDIX: 18, 42, 0, 0, 0, 0" ++ [CR; LF; CR; LF])]
  ∧ sequential_write_queue (after o) = [].
Proof. by vm_compute. Qed.

(** A status the table does not list is reported with the fallback
    text. *)
Example session_failed_unlisted_status :
  let o := check_io (waiting (Some Command.SESSION) [])
             (b"+SBDIX: 9, 42, 0, 0, 0, 0" ++ [CR; LF; CR; LF]
              ++ b"OK" ++ [CR; LF]) in
  MO_STATUS !! 9 = None
  ∧ fired o
    = [Notification "Error" "Message Transfer Failed!" "Unknown failure!";
       MessageTransferFailed 42;
       CommandFinished Command.SESSION true
         (b"+SBDIX: 9, 42, 0, 0, 0, 0" ++ [CR; LF; CR; LF])].
Proof. by vm_compute. Qed.

(** ** Trimming the idle buffer *)












(** An empty buffer stays empty. *)
Lemma idle_buffer_empty (st : engine) :
  truthy (previous_command st) = false →
  sequential_write_queue st = [] →
  read_buf st = [] →
  check_io st [] = Outcome (set_read_buf st []) [] None.
Proof.
  intros Hidle Hqueue Hbuf. rewrite (check_io_idle st [] Hidle).
  unfold check_unsolicited.
  cbn [read_buf set_read_buf sequential_write_queue].
  by rewrite Hbuf, Hqueue.
Qed.


(** ** Signal quality *)












Lemma rstrip_nonspace_end (s : bytes) (c : byte) :
  is_space c = false → rstrip (s ++ [c]) = s ++ [c].
Proof.
  intros Hc. unfold rstrip. rewrite rev_app_distr. cbn [rev app lstrip].
  rewrite Hc. cbn [rev]. by rewrite rev_involutive.
Qed.

Lemma rstrip_app_spaces (s ws : bytes) :
  Forall (fun c => is_space c = true) ws → rstrip (s ++ ws) = rstrip s.
Proof.
  intros Hws. unfold rstrip. f_equal. rewrite rev_app_distr.
  apply Forall_rev in Hws. induction Hws as [|c l Hc _ IH]; [done|].
  cbn [app lstrip]. by rewrite Hc.
Qed.


Lemma find_from_absent (sub s : bytes) (i : Z) :
  (∀ t, startswith sub t = true → ∃ c, head t = Some c ∧ c ∉ s) →
  find_from sub s i = -1.
Proof.
  intros Hsub. revert i. induction s as [|c s IH]; intros i.
  - cbn [find_from]. destruct (startswith sub []) eqn:E; [|done].
    apply Hsub in E as (c & Hc & _). done.
  - cbn [find_from]. destruct (startswith sub (c :: s)) eqn:E.
    + apply Hsub in E as (d & Hd & Hnot). injection Hd as <-.
      exfalso. apply Hnot. by left.
    + apply IH. intros t Ht. apply Hsub in Ht as (d & Hd & Hnot).
      exists d. split; [done|]. intros Hin. apply Hnot. by right.
Qed.







(** * Further properties of the code *)

(** ** The binary frame parser *)

Lemma from_bytes_big_range (s : bytes) :
  0 <= from_bytes_big s < 256 ^ Z.of_nat (length s).
Proof.
  induction s as [|c s IH] using rev_ind.
  - by vm_compute.
  - rewrite from_bytes_big_app, length_app. cbn [fold_left length].
    replace (Z.of_nat (length s + 1)) with (Z.succ (Z.of_nat (length s)))
      by lia.
    rewrite Z.pow_succ_r by lia.
    pose proof (byte_val_range c). lia.
Qed.

Lemma byte_of_Z_val (c : byte) : byte_of_Z (byte_val c) = c.
Proof.
  unfold byte_of_Z, byte_val. rewrite N2Z.id. by rewrite Byte.of_to_N.
Qed.

(** Encoding what was decoded gives the bytes back. *)
Lemma be_digits_from_bytes_big (s : bytes) :
  be_digits (length s) (from_bytes_big s) = s.
Proof.
  induction s as [|c s IH] using rev_ind; [done|].
  rewrite from_bytes_big_app, length_app. cbn [fold_left length].
  rewrite Nat.add_1_r. cbn [be_digits].
  pose proof (byte_val_range c).
  replace ((from_bytes_big s * 256 + byte_val c) / 256)
    with (from_bytes_big s)
    by (apply Z.div_unique with (r := byte_val c); lia).
  replace ((from_bytes_big s * 256 + byte_val c) mod 256)
    with (byte_val c)
    by (apply Z.mod_unique with (q := from_bytes_big s); lia).
  by rewrite IH, byte_of_Z_val.
Qed.

Lemma length_slice (s : bytes) (i j : Z) :
  (length (slice s i j) <= Z.to_nat j - Z.to_nat i)%nat.
Proof. unfold slice. rewrite length_take. lia. Qed.

(** The declared length of a frame is below 65536, and the checksum of a
    content that short always fits in four bytes. *)
Lemma frame_length_range (d : bytes) :
  0 <= from_bytes_big (upto_idx d 2) < 65536.
Proof.
  pose proof (from_bytes_big_range (upto_idx d 2)) as H.
  assert (Hlen : (length (upto_idx d 2) <= 2)%nat).
  { unfold upto_idx. rewrite length_take. change (Z.to_nat 2) with 2%nat. lia. }
  assert (256 ^ Z.of_nat (length (upto_idx d 2)) <= 256 ^ 2)
    by (apply Z.pow_le_mono_r; lia).
  change (256 ^ 2) with 65536 in *. lia.
Qed.

Lemma calc_checksum_slice (d : bytes) :
  let msg_len := from_bytes_big (upto_idx d 2) in
  calc_checksum (slice d 2 (msg_len + 2))
  = Some (checksum (slice d 2 (msg_len + 2))).
Proof.
  intros msg_len. apply calc_checksum_spec.
  pose proof (frame_length_range d) as Hn. fold msg_len in Hn.
  pose proof (length_slice d 2 (msg_len + 2)) as Hl.
  pose proof (bsum_range (slice d 2 (msg_len + 2))) as Hs.
  change (256 ^ 4) with 4294967296. lia.
Qed.

(** X1.  [parse_read_binary] succeeds exactly on the data for which
    [has_read_binary_data] answers [True]; the checksum it then computes is
    the 16-bit truncation of the byte sum of the content, and the overflow
    of [to_bytes(4, 'big')] cannot happen. *)
Theorem parse_read_binary_iff_has_data (data : bytes) :
  let d := after_echo data in
  let msg_len := from_bytes_big (upto_idx d 2) in
  let content := slice d 2 (msg_len + 2) in
  parse_read_binary data
  = if has_read_binary_data data
    then Ok (msg_len, content, slice d (msg_len + 2) (msg_len + 2 + 2),
             checksum content)
    else parse_error "Could not parse the read binary response!".
Proof.
  intros d msg_len content. unfold parse_read_binary, has_read_binary_data.
  fold d. fold msg_len. fold content.
  destruct (length (slice d (msg_len + 2) (msg_len + 2 + 2)) =? 2)%nat;
    [|done].
  cbn [negb]. unfold content, msg_len. by rewrite calc_checksum_slice.
Qed.

Lemma frame_slices (c rest : bytes) :
  blen c < 65536 →
  let d := len_be2 c ++ c ++ checksum c ++ rest in
  from_bytes_big (upto_idx d 2) = blen c
  ∧ slice d 2 (blen c + 2) = c
  ∧ slice d (blen c + 2) (blen c + 2 + 2) = checksum c.
Proof.
  intros Hlen d.
  assert (Hl2 : length (len_be2 c) = 2%nat) by apply length_be_digits.
  assert (Hck : length (checksum c) = 2%nat) by apply length_be_digits.
  assert (Hd1 : drop 2 d = c ++ checksum c ++ rest)
    by (unfold d; rewrite <- Hl2; apply drop_app_length).
  split_and!.
  - unfold upto_idx, d. change (Z.to_nat 2) with 2%nat.
    rewrite take_app_length' by done.
    apply from_bytes_big_be_digits. unfold blen in *.
    change (256 ^ Z.of_nat 2) with 65536. lia.
  - unfold slice, blen. change (Z.to_nat 2) with 2%nat. rewrite Hd1.
    replace (Z.to_nat (Z.of_nat (length c) + 2) - 2)%nat with (length c)
      by lia.
    apply take_app_length.
  - unfold slice, blen.
    replace (Z.to_nat (Z.of_nat (length c) + 2 + 2)
             - Z.to_nat (Z.of_nat (length c) + 2))%nat with 2%nat by lia.
    replace (Z.to_nat (Z.of_nat (length c) + 2)) with (2 + length c)%nat
      by lia.
    rewrite <- drop_drop, Hd1, drop_app_length, <- Hck.
    apply take_app_length.
Qed.

(** X2.  The engine reports [message_received(content)] exactly when the
    data, after the optional echo, is the frame of [content] (two length
    bytes, the content, the two checksum bytes of the content) followed by
    anything: a message whose length or checksum does not match is never
    reported as received. *)
Theorem message_received_iff_frame (st : engine) (data content : bytes) :
  (on_read_binary st data).1.2 = [MessageReceived content]
  ↔ blen content < 65536
    ∧ ∃ rest,
        after_echo data
        = len_be2 content ++ content ++ checksum content ++ rest.
Proof.
  unfold on_read_binary, parse_read_binary. cbv zeta.
  rewrite calc_checksum_slice.
  set (d := after_echo data).
  set (n := from_bytes_big (upto_idx d 2)).
  set (c := slice d 2 (n + 2)).
  set (cs := slice d (n + 2) (n + 2 + 2)).
  split.
  - destruct (Nat.eqb_spec (length cs) 2) as [Hcs|]; [|done].
    cbn [negb].
    destruct (Z.eqb_spec n (blen c)) as [Hn|]; [|done].
    cbn [andb]. unfold bytes_eqb. case_bool_decide as Hsum; [|done].
    cbn [fst snd]. intros [= <-].
    pose proof (frame_length_range d) as Hrange. fold n in Hrange.
    split; [lia|]. exists (drop (Z.to_nat n + 4) d).
    assert (Hc : c = take (Z.to_nat n) (drop 2 d)).
    { unfold c, slice. f_equal. lia. }
    assert (Hcs' : cs = take 2 (drop (2 + Z.to_nat n) d)).
    { unfold cs, slice. f_equal; [lia | f_equal; lia]. }
    assert (Hlc : length c = Z.to_nat n) by (unfold blen in Hn; lia).
    assert (Hd : (Z.to_nat n + 4 <= length d)%nat).
    { rewrite Hcs', length_take, length_drop in Hcs. lia. }
    assert (H2 : length (take 2 d) = 2%nat) by (rewrite length_take; lia).
    assert (Hhead : len_be2 c = take 2 d).
    { unfold len_be2. rewrite <- Hn. unfold n, upto_idx.
      change (Z.to_nat 2) with 2%nat. rewrite <- H2 at 1.
      apply be_digits_from_bytes_big. }
    rewrite Hhead, Hsum.
    rewrite <- (take_drop 2 d) at 1. f_equal.
    rewrite <- (take_drop (Z.to_nat n) (drop 2 d)) at 1. rewrite <- Hc.
    f_equal. rewrite drop_drop.
    rewrite <- (take_drop 2 (drop (2 + Z.to_nat n) d)) at 1.
    rewrite <- Hcs', drop_drop. do 2 f_equal. lia.
  - intros [Hlen [rest Hd]].
    destruct (frame_slices content rest Hlen) as (Hn & Hc & Hcs).
    rewrite <- Hd in Hn, Hc, Hcs. fold n in Hn.
    unfold cs, c. rewrite Hn, Hcs, Hc.
    change (length (checksum content)) with (length (be_digits 2 (bsum content mod 65536))).
    rewrite length_be_digits. cbn [Nat.eqb negb].
    rewrite Z.eqb_refl. unfold bytes_eqb. by rewrite bool_decide_eq_true_2.
Qed.

Lemma message_received_iff_frame_hello :
  (on_read_binary (waiting (Some Command.READ_BINARY) [])
     (frame (b"hello") ++ [CR; LF])).1.2
  = [MessageReceived (b"hello")].
Proof.
  apply (proj2 (message_received_iff_frame
                  (waiting (Some Command.READ_BINARY) [])
                  (frame (b"hello") ++ [CR; LF]) (b"hello"))).
  split; [by vm_compute|]. exists [CR; LF]. reflexivity.
Defined.

(** ** Stripping *)

Lemma lstrip_blank_app (ws s : bytes) :
  is_blank ws → lstrip (ws ++ s) = lstrip s.
Proof.
  induction 1 as [|c ws Hc _ IH]; [done|]. cbn [app lstrip]. by rewrite Hc.
Qed.

Lemma lstrip_solid_head (c : byte) (s : bytes) :
  is_space c = false → lstrip (c :: s) = c :: s.
Proof. intros Hc. cbn [lstrip]. by rewrite Hc. Qed.

Lemma lstrip_solid (s : bytes) : solid s → lstrip s = s.
Proof. intros [|c s' Hc _]; [done|]. by apply lstrip_solid_head. Qed.

Lemma rstrip_blank_app (s ws : bytes) :
  is_blank ws → rstrip (s ++ ws) = rstrip s.
Proof. apply rstrip_app_spaces. Qed.

Lemma rstrip_solid_app (s t : bytes) :
  solid t → t ≠ [] → rstrip (s ++ t) = s ++ t.
Proof.
  intros Ht Hne. destruct t as [|c t _] using rev_ind; [done|].
  apply Forall_app in Ht as [_ Hc]. apply Forall_inv in Hc.
  rewrite app_assoc. by apply rstrip_nonspace_end.
Qed.

(** Stripping keeps what lies between the first and the last byte that is
    no blank. *)
Lemma strip_between (ws1 ws2 s t : bytes) (c : byte) :
  is_blank ws1 → is_blank ws2 → is_space c = false →
  solid t → t ≠ [] →
  strip (ws1 ++ (c :: s) ++ t ++ ws2) = (c :: s) ++ t.
Proof.
  intros H1 H2 Hc Ht Hne. unfold strip.
  rewrite !app_assoc, rstrip_blank_app by done.
  rewrite <- !app_assoc, (app_assoc ws1), rstrip_solid_app by done.
  rewrite <- app_assoc, lstrip_blank_app by done.
  by apply lstrip_solid_head.
Qed.


Lemma strip_blank (ws : bytes) : is_blank ws → strip ws = [].
Proof.
  intros Hws. unfold strip.
  pose proof (rstrip_blank_app [] ws Hws) as Hr. cbn [app] in Hr.
  by rewrite Hr.
Qed.

Lemma last_lstrip_solid_end (s : bytes) (c : byte) :
  is_space c = false → last (lstrip (s ++ [c])) = Some c.
Proof.
  intros Hc. induction s as [|d s IH]; cbn [app lstrip].
  - by rewrite Hc.
  - destruct (is_space d); [done|]. by rewrite last_cons, last_snoc.
Qed.

(** ** The write-binary status *)

(** X3.  [parse_write_binary] looks at the last byte that is no blank and
    at nothing else: the answer is [True] exactly when that byte is the
    digit 0 (so a status such as 10 counts as success), and a response of
    blanks only is a parse error. *)
Theorem parse_write_binary_last_byte (data : bytes) :
  (∀ (x ws : bytes) (c : byte),
      data = x ++ [c] ++ ws → is_space c = false → is_blank ws →
      parse_write_binary data = Ok (bool_decide (c = "0"%byte)))
  ∧ (is_blank data →
     parse_write_binary data
     = parse_error "Could not parse the write binary response!").
Proof.
  split.
  - intros x ws c -> Hc Hws. unfold parse_write_binary, strip.
    rewrite app_assoc, rstrip_blank_app, rstrip_nonspace_end by done.
    rewrite last_lstrip_solid_end by done.
    unfold bytes_eqb. f_equal. apply bool_decide_ext.
    split; [by intros [= ->] | by intros ->].
  - intros Hws. unfold parse_write_binary. by rewrite strip_blank.
Qed.

Lemma parse_write_binary_last_byte_replies :
  ([CR; LF] ++ b"10" ++ [CR; LF; CR; LF]
   = ([CR; LF] ++ b"1") ++ ["0"%byte] ++ [CR; LF; CR; LF]
   ∧ is_space "0"%byte = false ∧ is_blank [CR; LF; CR; LF]
   ∧ parse_write_binary ([CR; LF] ++ b"10" ++ [CR; LF; CR; LF]) = Ok true)
  ∧ (is_blank [CR; LF]
     ∧ parse_write_binary [CR; LF]
       = parse_error "Could not parse the write binary response!").
Proof.
  assert (Hblank : is_blank [CR; LF; CR; LF]) by (repeat constructor).
  assert (Hblank2 : is_blank [CR; LF]) by (repeat constructor).
  split; [split; [done | split; [done | split; [done|]]] | split; [done|]].
  - exact (proj1 (parse_write_binary_last_byte
                    ([CR; LF] ++ b"10" ++ [CR; LF; CR; LF]))
             ([CR; LF] ++ b"1") [CR; LF; CR; LF] "0"%byte
             eq_refl eq_refl Hblank).
  - exact (proj2 (parse_write_binary_last_byte [CR; LF]) Hblank2).
Defined.

(** ** Numbers as text *)

Lemma printable_solid (s : bytes) : printable s → solid s.
Proof.
  intros H. eapply Forall_impl; [exact H|]. cbv beta.
  intros c Hc. unfold is_space. cbv zeta.
  destruct (Z.eqb_spec (byte_val c) 32); [lia|].
  destruct (Z.leb_spec 9 (byte_val c)); destruct (Z.leb_spec (byte_val c) 13);
    simpl; lia.
Qed.

Lemma printable_ascii (s : bytes) : printable s → ascii_only s.
Proof.
  intros H. eapply Forall_impl; [exact H|]. cbv beta. intros c Hc. lia.
Qed.



Lemma utf8_scan_ascii (s : bytes) : ascii_only s → utf8_scan 0 128 191 s = true.
Proof.
  induction 1 as [|c s Hc _ IH]; [done|].
  cbn [utf8_scan]. cbv zeta. destruct (Z.ltb_spec (byte_val c) 128); [done | lia].
Qed.

Lemma decode_utf8_ascii (s : bytes) : ascii_only s → decode_utf8 s = Some s.
Proof. intros Hs. unfold decode_utf8. by rewrite utf8_scan_ascii. Qed.

Lemma text_len_ascii (s : bytes) : ascii_only s → text_len s = blen s.
Proof.
  intros Hs. unfold text_len. f_equal.
  induction Hs as [|c s Hc _ IH]; [done|].
  rewrite filter_cons. pose proof (byte_val_range c) as Hr.
  rewrite decide_True; [by rewrite IH|].
  unfold in_range. destruct (Z.leb_spec 128 (byte_val c)); [lia | done].
Qed.





(** ** Searching *)

Lemma find_from_skip (sub : bytes) (c : byte) (s : bytes) (i : Z) :
  startswith sub (c :: s) = false →
  find_from sub (c :: s) i = find_from sub s (i + 1).
Proof. intros H. cbn [find_from]. by rewrite H. Qed.

(** A string that starts with a byte a prefix does not hold is first
    found right after that prefix. *)
Lemma find_after_absent (c : byte) (sub x y : bytes) :
  c ∉ x → find (c :: sub) (x ++ (c :: sub) ++ y) = blen x.
Proof.
  intros Hc. unfold find, blen.
  enough (H : ∀ i, find_from (c :: sub) (x ++ (c :: sub) ++ y) i
                   = i + Z.of_nat (length x)) by (rewrite H; lia).
  induction x as [|d x IH]; intros i.
  - cbn [app length]. rewrite find_from_head; [lia|].
    apply (startswith_app (c :: sub) y).
  - cbn [app]. rewrite find_from_skip.
    + rewrite IH; [rewrite length_cons; lia|].
      intros Hin. apply Hc. by right.
    + destruct (startswith (c :: sub) (d :: x ++ (c :: sub) ++ y)) eqn:E;
        [|done].
      apply startswith_spec in E as [rest E]. injection E as <- _.
      exfalso. apply Hc. by left.
Qed.


Lemma find_absent_byte (c : byte) (sub s : bytes) :
  c ∉ s → find (c :: sub) s = -1.
Proof.
  intros Hc. apply find_from_absent. intros t Ht.
  destruct t as [|d t]; [done|]. cbn [startswith] in Ht.
  apply andb_true_iff in Ht as [Ht _]. apply byte_eqb_eq in Ht as <-.
  by exists c.
Qed.

Lemma solid_no_newline (s : bytes) : solid s → LF ∉ s.
Proof.
  intros Hs Hin. unfold solid in Hs. rewrite Forall_forall in Hs.
  by apply Hs in Hin.
Qed.

(** ** The token of a response line *)

(** A response that holds the marker, blanks, a token without blank and
    closing blanks gives that token, whatever precedes the marker. *)
Lemma response_token_reply (marker pre sp tok ws : bytes) (c0 : byte)
  (r0 : bytes) :
  pre ++ marker = c0 :: r0 → is_space c0 = false →
  find marker (pre ++ marker ++ sp ++ tok) = blen pre →
  is_blank sp → solid tok → tok ≠ [] → is_blank ws →
  response_token marker (pre ++ marker ++ sp ++ tok ++ ws) = Some tok.
Proof.
  intros Hhead Hc0 Hfind Hsp Htok Hne Hws. unfold response_token. cbv zeta.
  assert (Hstrip : strip (pre ++ marker ++ sp ++ tok ++ ws)
                   = pre ++ marker ++ sp ++ tok).
  { pose proof (strip_between [] ws (r0 ++ sp) tok c0
                  ltac:(constructor) Hws Hc0 Htok Hne) as H.
    assert (E : c0 :: r0 ++ sp = (pre ++ marker) ++ sp) by (by rewrite Hhead).
    rewrite E in H. cbn [app] in H. by rewrite <- !app_assoc in H. }
  rewrite Hstrip, Hfind.
  destruct (Z.leb_spec 0 (blen pre)); [|unfold blen in *; lia].
  assert (Hdrop : from_idx (pre ++ marker ++ sp ++ tok) (blen pre + blen marker)
                  = sp ++ tok).
  { unfold from_idx, blen.
    replace (Z.to_nat (Z.of_nat (length pre) + Z.of_nat (length marker)))
      with (length (pre ++ marker)) by (rewrite length_app; lia).
    rewrite app_assoc. apply drop_app_length. }
  rewrite Hdrop.
  assert (Hinner : strip (sp ++ tok) = tok).
  { unfold strip. rewrite rstrip_solid_app, lstrip_blank_app by done.
    by apply lstrip_solid. }
  rewrite Hinner, (find_absent_byte LF [] tok) by (by apply solid_no_newline).
  done.
Qed.

(** ** Comma-separated fields *)









(** ** The session answer of the emulator, as the host parses it *)




(** ** Hexadecimal text *)
















(** ** One exchange between the engine and the emulator *)






Ltac absent_byte := apply (bool_decide_unpack _); by vm_compute.












(** ** The serial number *)









(** ** Answers that arrive in pieces *)

(** X9.  While a command is pending, bytes that complete neither an [OK]
    nor (for a command other than the binary read) a [READY] are only
    added to the buffer: nothing is reported, written or dequeued, and the
    next bytes are handled exactly as if both pieces had arrived
    together. *)
Theorem answer_in_pieces (st : engine) (cmd m1 m2 : bytes) :
  previous_command st = Some cmd → cmd ≠ [] →
  contains Command.OK (read_buf st ++ m1) = false →
  contains Command.READY (read_buf st ++ m1)
  && negb (bytes_eqb Command.READ_BINARY cmd) = false →
  check_io st m1 = Outcome (set_read_buf st (read_buf st ++ m1)) [] None
  ∧ check_io (after (check_io st m1)) m2 = check_io st (m1 ++ m2).
Proof.
  intros Hprev Hcmd Hok Hready.
  assert (Hfirst : check_io st m1
                   = Outcome (set_read_buf st (read_buf st ++ m1)) [] None).
  { rewrite (check_io_pending st m1 cmd Hprev Hcmd).
    unfold check_pending_command. cbn [read_buf set_read_buf].
    by rewrite Hok, Hready. }
  split; [done|]. rewrite Hfirst. cbn [after].
  rewrite (check_io_pending _ m2 cmd) by done.
  rewrite (check_io_pending st (m1 ++ m2) cmd Hprev Hcmd).
  cbn [read_buf set_read_buf]. by rewrite app_assoc.
Qed.

Lemma answer_in_pieces_witness :
  check_io (waiting (Some Command.SIGNAL_QUALITY) []) (b"+CS")
  = Outcome (set_read_buf (waiting (Some Command.SIGNAL_QUALITY) [])
               ([] ++ b"+CS")) [] None
  ∧ check_io (after (check_io (waiting (Some Command.SIGNAL_QUALITY) [])
                       (b"+CS")))
      (b"Q:4" ++ [CR; LF; CR; LF] ++ b"OK" ++ [CR; LF])
    = check_io (waiting (Some Command.SIGNAL_QUALITY) [])
        (b"+CS" ++ b"Q:4" ++ [CR; LF; CR; LF] ++ b"OK" ++ [CR; LF]).
Proof.
  apply (answer_in_pieces (waiting (Some Command.SIGNAL_QUALITY) [])
           Command.SIGNAL_QUALITY);
    [reflexivity | done | by vm_compute | by vm_compute].
Defined.

(** ** Reading a message from the emulator *)

Lemma find_from_present (sub x y : bytes) (i : Z) :
  i <= find_from sub (x ++ sub ++ y) i.
Proof.
  revert i. induction x as [|a x IH]; intros i.
  - cbn [app]. rewrite find_from_head by apply startswith_app. lia.
  - cbn [app find_from].
    destruct (startswith sub (a :: x ++ sub ++ y)); [lia|].
    specialize (IH (i + 1)). lia.
Qed.

Lemma contains_present (sub x y : bytes) : contains sub (x ++ sub ++ y) = true.
Proof.
  unfold contains, find. apply Z.leb_le. apply find_from_present.
Qed.

(** The last [OK] of an answer: when [OK] sits in front of the closing
    blank line's [OK], it sits inside the part [e] in front of the blank
    line. *)
Lemma ok_in_tail (x y : bytes) :
  x ++ Command.OK ++ y = Server.blank_line ++ Command.OK ++ [CR; LF] →
  x = Server.blank_line ∧ y = [CR; LF].
Proof.
  intros H.
  destruct x as [|x0 x]; [discriminate|]. injection H as -> H.
  destruct x as [|x1 x]; [discriminate|]. injection H as -> H.
  destruct x as [|x2 x]; [discriminate|]. injection H as -> H.
  destruct x as [|x3 x]; [discriminate|]. injection H as -> H.
  destruct x as [|x4 x]; [injection H as ->; by split|]. injection H as -> H.
  destruct x as [|x5 x]; [discriminate|]. injection H as -> H.
  destruct x as [|x6 x]; [discriminate|]. injection H as -> H.
  destruct x as [|x7 x]; [discriminate|]. injection H as -> H.
  destruct x; discriminate.
Qed.

Lemma ok_split_cases (e : bytes) :
  ∀ x y : bytes,
  x ++ Command.OK ++ y = (e ++ Server.blank_line) ++ Command.OK ++ [CR; LF] →
  (x = e ++ Server.blank_line ∧ y = [CR; LF])
  ∨ ∃ z, e = x ++ Command.OK ++ z
         ∧ y = z ++ Server.blank_line ++ Command.OK ++ [CR; LF].
Proof.
  induction e as [|e0 e IH]; intros x y H.
  - left. by apply ok_in_tail.
  - destruct x as [|x0 x].
    + right. cbn [app] in H. injection H as <- H.
      destruct e as [|e1 e]; [discriminate|].
      cbn [app] in H. injection H as <- H.
      exists e. split; [done|]. by rewrite H, <- app_assoc.
    + cbn [app] in H. injection H as -> H.
      destruct (IH x y H) as [[-> ->]|(z & -> & ->)]; [by left|].
      right. by exists z.
Qed.

(** A piece of a frame that stops in front of an [OK] inside the frame is
    not taken for a complete frame. *)
Lemma has_read_binary_data_cut (c x z : bytes) :
  blen c < 65536 → frame c = x ++ Command.OK ++ z →
  has_read_binary_data x = false.
Proof.
  intros Hlen H. unfold frame in H.
  remember (len_be2 c ++ c ++ checksum c) as body eqn:Hbody.
  change Command.READ_BINARY_RECEIVE with (b"AT+SBDRB" ++ [CR]) in H.
  cbn [app] in H.
  destruct x as [|x0 x]; [discriminate|]. injection H as <- H.
  destruct x as [|x1 x]; [discriminate|]. injection H as <- H.
  destruct x as [|x2 x]; [discriminate|]. injection H as <- H.
  destruct x as [|x3 x]; [discriminate|]. injection H as <- H.
  destruct x as [|x4 x]; [discriminate|]. injection H as <- H.
  destruct x as [|x5 x]; [discriminate|]. injection H as <- H.
  destruct x as [|x6 x]; [discriminate|]. injection H as <- H.
  destruct x as [|x7 x]; [discriminate|]. injection H as <- H.
  destruct x as [|x8 x]; [discriminate|]. injection H as <- H.
  subst body.
  unfold has_read_binary_data. cbv zeta.
  change ("A"%byte :: "T"%byte :: "+"%byte :: "S"%byte :: "B"%byte
          :: "D"%byte :: "R"%byte :: "B"%byte :: CR :: x)
    with (Command.READ_BINARY_RECEIVE ++ x).
  rewrite (after_echo_frame x).
  assert (Hl2 : length (len_be2 c) = 2%nat) by apply length_be_digits.
  assert (Hck : length (checksum c) = 2%nat) by apply length_be_digits.
  assert (Hx : (length x <= length c + 2)%nat).
  { apply (f_equal length) in H. rewrite !length_app, Hl2, Hck in H.
    cbn [length] in H. lia. }
  assert (Hm : (length x <= Z.to_nat (from_bytes_big (upto_idx x 2) + 2))%nat).
  { destruct (Nat.lt_ge_cases (length x) 2) as [Hshort|Hlong].
    - pose proof (from_bytes_big_range (upto_idx x 2)). lia.
    - assert (Hhead : upto_idx x 2 = len_be2 c).
      { unfold upto_idx. change (Z.to_nat 2) with 2%nat.
        apply (f_equal (take 2)) in H.
        rewrite take_app_length' in H by done.
        rewrite take_app_le in H by done. done. }
      rewrite Hhead. unfold len_be2.
      rewrite from_bytes_big_be_digits
        by (unfold blen in *; change (256 ^ Z.of_nat 2) with 65536; lia).
      unfold blen. lia. }
  unfold slice. rewrite drop_ge by done. by rewrite take_nil.
Qed.

Lemma has_read_binary_data_answer (c rest : bytes) :
  blen c < 65536 → has_read_binary_data (frame c ++ rest) = true.
Proof.
  intros Hlen. unfold has_read_binary_data, frame. cbv zeta.
  rewrite <- !app_assoc, after_echo_frame.
  destruct (frame_slices c rest Hlen) as (Hn & _ & Hcs).
  cbv zeta in Hn, Hcs. rewrite Hn, Hcs.
  change (length (checksum c)) with (length (be_digits 2 (bsum c mod 65536))).
  by rewrite length_be_digits.
Qed.

Lemma on_read_binary_answer (st : engine) (c rest : bytes) :
  blen c < 65536 →
  on_read_binary st (frame c ++ rest) = (st, [MessageReceived c], true).
Proof.
  intros Hlen. unfold on_read_binary, parse_read_binary, frame. cbv zeta.
  rewrite <- !app_assoc, after_echo_frame.
  rewrite calc_checksum_slice.
  destruct (frame_slices c rest Hlen) as (Hn & Hc & Hcs).
  cbv zeta in Hn, Hc, Hcs. rewrite Hn, Hcs, Hc.
  change (length (checksum c)) with (length (be_digits 2 (bsum c mod 65536))).
  rewrite length_be_digits. cbn [Nat.eqb negb].
  rewrite Z.eqb_refl. unfold bytes_eqb. by rewrite bool_decide_eq_true_2.
Qed.

(** However the bytes in front of the last [OK] are cut at earlier
    occurrences of [OK], the loop of the read-binary branch puts them
    together again and stops with the whole frame. *)
Lemma gather_frame (c : bytes) (fuel : nat) (data buf : bytes) :
  blen c < 65536 → (length buf <= fuel)%nat →
  data ++ Command.OK ++ buf
  = (frame c ++ Server.blank_line) ++ Command.OK ++ [CR; LF] →
  gather fuel data buf = (frame c ++ Server.blank_line, [CR; LF]).
Proof.
  intros Hlen Hfuel Hfull.
  pose proof (gather_join fuel data buf) as Hjoin.
  pose proof (gather_exit fuel data buf Hfuel) as Hexit.
  destruct (gather fuel data buf) as [data' buf'].
  rewrite Hfull in Hjoin.
  destruct (ok_split_cases _ _ _ Hjoin) as [[-> ->]|(z & Hz & ->)]; [done|].
  rewrite (has_read_binary_data_cut c data' z Hlen Hz) in Hexit.
  rewrite app_assoc in Hexit.
  rewrite (contains_present Command.OK (z ++ Server.blank_line) [CR; LF])
    in Hexit.
  by destruct Hexit.
Qed.

Lemma to_bytes_big_length (content : bytes) :
  blen content < 65536 →
  to_bytes_big 2 (blen content) = Some (len_be2 content).
Proof.
  intros Hlen. unfold to_bytes_big, blen in *.
  change (256 ^ Z.of_nat 2) with 65536.
  destruct (Z.leb_spec 0 (Z.of_nat (length content))); [|lia].
  by destruct (Z.ltb_spec (Z.of_nat (length content)) 65536); [|lia].
Qed.

Lemma calc_checksum_short (content : bytes) :
  blen content < 65536 → calc_checksum content = Some (checksum content).
Proof.
  intros Hlen. apply calc_checksum_spec.
  pose proof (bsum_range content). unfold blen in Hlen.
  change (256 ^ 4) with 4294967296. lia.
Qed.

(** X10.  A message waiting in the emulator reaches the host unchanged:
    when the host waits for the answer to [AT+SBDRB] with an empty buffer
    and receives what the emulator writes for that command, it reports
    [message_received] with exactly the message the emulator took from
    the head of its queue, and finishes the command as successful.  This
    holds for every message shorter than 65536 bytes, also for one whose
    bytes, length or checksum contain [OK]. *)
Theorem read_binary_exchange (sv : Server.server) (st : engine)
  (msg : bytes) (rest : list bytes) :
  Server.write_queue sv = msg :: rest → blen msg < 65536 →
  previous_command st = Some Command.READ_BINARY → read_buf st = [] →
  ∃ writes data,
    Server.check_incoming sv (Command.READ_BINARY ++ [CR])
    = Server.Returned (Server.set_write_queue sv rest) writes
    ∧ data ++ Server.ok_line = concat writes
    ∧ check_io st (concat writes)
      = Outcome (assign_previous_command (set_read_buf st [CR; LF]) None)
          [MessageReceived msg;
           CommandFinished Command.READ_BINARY true data]
          None.
Proof.
  intros Hqueue Hlen Hprev Hbuf.
  exists [frame msg ++ Server.blank_line; Server.ok_line],
         (frame msg ++ Server.blank_line).
  split_and!.
  - change (Server.check_incoming sv (Command.READ_BINARY ++ [CR]))
      with (match Server.write_queue sv with
            | msg :: rest =>
                let sv := Server.set_write_queue sv rest in
                match to_bytes_big 2 (blen msg), calc_checksum msg with
                | Some msg_len, Some checksum =>
                    Server.Returned sv
                      [concat [Command.READ_BINARY_RECEIVE; msg_len; msg;
                               checksum; Server.blank_line];
                       Server.ok_line]
                | _, _ => Server.Raised sv [] OverflowError
                end
            | [] => Server.Returned sv [Server.ok_line]
            end).
    rewrite Hqueue. cbv zeta.
    rewrite to_bytes_big_length, calc_checksum_short by done.
    unfold frame. cbn [concat]. by rewrite app_nil_r, <- !app_assoc.
  - cbn [concat]. by rewrite app_nil_r.
  - cbn [concat]. rewrite app_nil_r.
    set (answer := frame msg ++ Server.blank_line).
    rewrite (check_io_pending st _ Command.READ_BINARY Hprev) by done.
    rewrite Hbuf. cbn [app].
    unfold check_pending_command. cbn [read_buf set_read_buf].
    change (answer ++ Server.ok_line)
      with (answer ++ Command.OK ++ [CR; LF]).
    pose proof (contains_present Command.OK answer [CR; LF]) as Hok.
    rewrite Hok. cbv zeta.
    change (bytes_eqb Command.SYSTEM_TIME Command.READ_BINARY) with false.
    change (bytes_eqb Command.SERIAL_NUMBER Command.READ_BINARY) with false.
    change (bytes_eqb Command.SIGNAL_QUALITY Command.READ_BINARY) with false.
    change (bytes_eqb Command.CHECK_RING Command.READ_BINARY) with false.
    change (bytes_eqb Command.SESSION Command.READ_BINARY) with false.
    change (bytes_eqb Command.READ_BINARY Command.READ_BINARY) with true.
    cbv iota.
    pose proof (contains_split Command.OK _ Hok) as Hsplit.
    change (blen Command.OK) with 2 in Hsplit.
    set (full := answer ++ Command.OK ++ [CR; LF]) in *.
    set (idx := find Command.OK full) in *.
    rewrite (gather_frame msg _ (upto_idx full idx) (from_idx full (idx + 2))
               Hlen (Nat.le_refl _) (eq_sym Hsplit)).
    fold answer. unfold answer at 1.
    rewrite has_read_binary_data_answer by done. cbn [negb].
    unfold answer. rewrite on_read_binary_answer by done.
    reflexivity.
Qed.

Lemma read_binary_exchange_witness :
  ∃ writes data,
    Server.check_incoming (emulator true (b"12345") [b"LOOK OK"; b"next"])
      (Command.READ_BINARY ++ [CR])
    = Server.Returned
        (Server.set_write_queue
           (emulator true (b"12345") [b"LOOK OK"; b"next"]) [b"next"])
        writes
    ∧ data ++ Server.ok_line = concat writes
    ∧ check_io (waiting (Some Command.READ_BINARY) []) (concat writes)
      = Outcome
          (assign_previous_command
             (set_read_buf (waiting (Some Command.READ_BINARY) []) [CR; LF])
             None)
          [MessageReceived (b"LOOK OK");
           CommandFinished Command.READ_BINARY true data]
          None.
Proof.
  apply (read_binary_exchange (emulator true (b"12345") [b"LOOK OK"; b"next"])
           (waiting (Some Command.READ_BINARY) []) (b"LOOK OK") [b"next"]);
    [reflexivity | by vm_compute | reflexivity | reflexivity].
Defined.

(** ** Sending a message *)





(** ** A ring *)

(** X12.  The emulator's [write_serial] queues a message of at most 270
    bytes and writes a ring.  A host with no command pending, an empty
    buffer and an empty sequential queue that receives the ring writes
    nothing and reports nothing at first, but queues a session; at its
    next poll, without further input, it sends [AT+SBDIX] and a carriage
    return, makes that command pending and empties its buffer. *)
Theorem ring_starts_session (sv : Server.server) (st : engine) (msg : bytes) :
  blen msg <= 270 →
  truthy (previous_command st) = false → read_buf st = [] →
  sequential_write_queue st = [] →
  ∃ ring,
    server_write_serial sv msg
    = Server.Returned
        (Server.set_write_queue sv (deque_append (Server.write_queue sv) msg))
        [ring]
    ∧ let o1 := check_io st ring in
      let o2 := check_io (after o1) [] in
      o1 = Outcome (queue_command (set_read_buf st [LF]) Command.SESSION)
             [] None
      ∧ o2 = Outcome (assign_previous_command st (Some Command.SESSION))
               [SerialWrite (Command.SESSION ++ [CR])] None.
Proof.
  intros Hlen Hidle Hbuf Hqueue. exists (b"SBDRING" ++ [LF]). split.
  - unfold server_write_serial.
    by destruct (Z.ltb_spec 270 (blen msg)); [lia|].
  - cbv zeta.
    assert (Ho1 : check_io st (b"SBDRING" ++ [LF])
                  = Outcome (queue_command (set_read_buf st [LF])
                               Command.SESSION) [] None).
    { rewrite (check_io_idle st _ Hidle). unfold check_unsolicited.
      cbn [read_buf set_read_buf sequential_write_queue]. rewrite Hbuf, Hqueue.
      reflexivity. }
    split; [done|]. rewrite Ho1. cbn [after].
    rewrite check_io_idle by done.
    unfold check_unsolicited, queue_command.
    cbn [read_buf set_read_buf sequential_write_queue
         set_sequential_write_queue].
    rewrite Hqueue. cbn [app].
    change (contains Command.RING [LF]) with false. cbv iota.
    change (deque_append [] Command.SESSION) with [Command.SESSION].
    cbv iota. destruct st. cbn in *. by subst.
Qed.

Lemma ring_starts_session_witness :
  ∃ ring,
    server_write_serial (emulator true (b"12345") []) (b"hello")
    = Server.Returned
        (Server.set_write_queue (emulator true (b"12345") [])
           (deque_append (Server.write_queue (emulator true (b"12345") []))
              (b"hello")))
        [ring]
    ∧ let o1 := check_io (waiting None []) ring in
      let o2 := check_io (after o1) [] in
      o1 = Outcome (queue_command (set_read_buf (waiting None []) [LF])
                      Command.SESSION)
             [] None
      ∧ o2 = Outcome
               (assign_previous_command (waiting None [])
                  (Some Command.SESSION))
               [SerialWrite (Command.SESSION ++ [CR])] None.
Proof.
  apply (ring_starts_session (emulator true (b"12345") []) (waiting None [])
           (b"hello"));
    [by vm_compute | reflexivity | reflexivity | reflexivity].
Defined.

(** ** The session *)




(** ** Clearing the buffers *)



(** ** Commands the emulator does not know *)

Lemma is_cmd_other (c line : bytes) :
  line ≠ c → Server.is_cmd c (line ++ [CR]) = false.
Proof.
  intros Hne. unfold Server.is_cmd, bytes_eqb.
  apply bool_decide_eq_false_2. intros H. by apply app_inv_tail in H.
Qed.

Lemma find_CR_end (line rest : bytes) :
  CR ∉ line → find [CR] (line ++ CR :: rest) = blen line.
Proof. intros H. exact (find_after_absent CR [] line rest H). Qed.

(** One round of the emulator's loop: the line in front of the first
    carriage return is dispatched with the rest as the buffer. *)
Lemma dispatch_lines_line (fuel : nat) (sv : Server.server)
  (written : list bytes) (line rest : bytes) :
  CR ∉ line → Server.read_buf sv = line ++ CR :: rest →
  Server.dispatch_lines (S fuel) sv written
  = match Server.check_incoming (Server.set_read_buf sv rest) (line ++ [CR])
    with
    | Server.Returned sv' more =>
        Server.dispatch_lines fuel sv' (written ++ more)
    | Server.Raised sv' more e => Server.Raised sv' (written ++ more) e
    | Server.Unmodelled => Server.Unmodelled
    end.
Proof.
  intros Hcr Hbuf. cbn [Server.dispatch_lines]. rewrite Hbuf.
  unfold contains. rewrite find_CR_end by done.
  destruct (Z.leb_spec 0 (blen line)) as [_|Hneg]; [|unfold blen in Hneg; lia].
  cbv zeta.
  assert (Hdata : upto_idx (line ++ CR :: rest) (blen line) = line).
  { unfold upto_idx, blen. rewrite Nat2Z.id. by rewrite take_app_length. }
  assert (Hrest : from_idx (line ++ CR :: rest) (blen line + 1) = rest).
  { unfold from_idx, blen.
    replace (Z.to_nat (Z.of_nat (length line) + 1)) with (length line + 1)%nat
      by lia.
    by rewrite <- drop_drop, drop_app_length. }
  by rewrite Hdata, Hrest.
Qed.

Lemma dispatch_lines_done (fuel : nat) (sv : Server.server)
  (written : list bytes) :
  Server.read_buf sv = [] →
  Server.dispatch_lines fuel sv written = Server.Returned sv written.
Proof. intros Hbuf. destruct fuel; [done|]. cbn [Server.dispatch_lines]. by rewrite Hbuf. Qed.

(** A line without a branch of its own reaches the last test of
    [check_incoming], which looks at the end of the buffer behind the
    line. *)
Lemma check_incoming_unknown (sv : Server.server) (line : bytes) :
  line ∉ answered → startswith Command.WRITE_BINARY (line ++ [CR]) = false →
  Server.check_incoming sv (line ++ [CR])
  = if bool_decide (last (Server.read_buf sv) = Some CR)
    then Server.Returned sv
           (Server.echo_command sv (line ++ [CR]) ++ [Server.ok_line])
    else Server.Returned sv [].
Proof.
  intros Hunknown Hwb.
  unfold answered in Hunknown. rewrite !not_elem_of_cons in Hunknown.
  destruct Hunknown as
    (H1 & H2 & H3 & H4 & H5 & H6 & H7 & H8 & H9 & H10 & H11 & H12 & H13
     & H14 & H15 & H16 & H17 & _).
  unfold Server.check_incoming.
  rewrite !is_cmd_other by done. by rewrite Hwb.
Qed.

(** X14.  A command the emulator has no branch for, sent on its own to an
    emulator with an empty buffer, gets no answer at all: neither an echo
    nor [OK] is written.  The emulator only remembers the chunk in its
    read history.  The clear-buffer commands [AT+SBDD1] and [AT+SBDD2] are
    such commands. *)
Theorem unknown_command_unanswered (sv : Server.server) (line : bytes) :
  line ∉ answered → startswith Command.WRITE_BINARY (line ++ [CR]) = false →
  CR ∉ line → Server.read_buf sv = [] →
  Server.check_io sv (line ++ [CR])
  = Server.Returned
      (Server.set_read_history sv
         (Server.history_append (Server.read_history sv) (line ++ [CR])))
      [].
Proof.
  intros Hunknown Hwb Hcr Hbuf. unfold Server.check_io.
  assert (Hne : bytes_eqb (line ++ [CR]) [] = false).
  { unfold bytes_eqb. apply bool_decide_eq_false_2. by destruct line. }
  rewrite Hne. cbn [negb]. cbv zeta.
  set (h := Server.history_append (Server.read_history sv) (line ++ [CR])).
  destruct sv as [opts sn counter quality history status msn buf queue].
  cbn [Server.read_buf] in Hbuf. subst buf.
  cbn [Server.read_buf Server.set_read_buf Server.set_read_history app].
  rewrite length_app, Nat.add_comm. cbn [length Nat.add].
  rewrite (dispatch_lines_line _ _ _ line []) by done.
  rewrite check_incoming_unknown by done.
  cbn [Server.read_buf Server.set_read_buf last].
  rewrite bool_decide_eq_false_2 by done.
  by rewrite dispatch_lines_done.
Qed.

Lemma unknown_command_unanswered_witness :
  Server.check_io (emulator true (b"12345") [])
    (Command.CLEAR_BOTH_BUFFERS ++ [CR])
  = Server.Returned
      (Server.set_read_history (emulator true (b"12345") [])
         (Server.history_append
            (Server.read_history (emulator true (b"12345") []))
            (Command.CLEAR_BOTH_BUFFERS ++ [CR])))
      [].
Proof.
  apply (unknown_command_unanswered (emulator true (b"12345") [])
           Command.CLEAR_BOTH_BUFFERS);
    [ | reflexivity | | reflexivity];
    apply (bool_decide_unpack _); by vm_compute.
Defined.

(** ** Options *)

(** X15.  An option that was set is read back under every spelling of its
    name that differs only in the case of its letters, and setting it
    leaves every other option as it was; an option never set reads as
    [False]. *)
Theorem get_option_set_option (st : engine) (name name' : string)
  (value : bool) :
  get_option (set_option st name value) name'
  = (if bool_decide (lower name = lower name') then value
     else get_option st name')
  ∧ (options st !! lower name' = None → get_option st name' = false).
Proof.
  split.
  - unfold get_option, set_option, set_options. cbn [options].
    case_bool_decide as Hname.
    + by rewrite Hname, lookup_insert_eq.
    + by rewrite lookup_insert_ne.
  - unfold get_option. by intros ->.
Qed.

Lemma get_option_set_option_witness :
  (get_option (set_option (waiting None []) "Echo" false) "ECHO"
   = (if bool_decide (lower "Echo" = lower "ECHO") then false
      else get_option (waiting None []) "ECHO"))
  ∧ get_option (waiting None []) "verbose" = false.
Proof.
  split.
  - apply (proj1 (get_option_set_option (waiting None []) "Echo" "ECHO" false)).
  - apply (proj2 (get_option_set_option (waiting None []) "x" "verbose" true)).
    reflexivity.
Defined.

(** ** The bound of the sequential queue *)

Lemma deque_append_bounded (q : list bytes) (x : bytes) :
  (length (deque_append q x) <= maxlen)%nat.
Proof.
  unfold deque_append. cbv zeta. rewrite length_drop. unfold maxlen. lia.
Qed.

Lemma fold_deque_append_bounded (added q : list bytes) :
  (length q <= maxlen)%nat →
  (length (fold_left deque_append added q) <= maxlen)%nat.
Proof.
  revert q. induction added as [|x added IH]; intros q Hq; [done|].
  cbn [fold_left]. apply IH, deque_append_bounded.
Qed.

Lemma check_io_bounded (st : engine) (message : bytes) :
  bounded st → bounded (after (check_io st message)).
Proof.
  unfold bounded. intros Hst.
  destruct (check_io_disciplined st message)
    as [(cmd & (Hq & _) & _)|[(added & Hq) _]].
  - rewrite Hq in Hst. cbn [length] in Hst. lia.
  - rewrite Hq. by apply fold_deque_append_bounded.
Qed.

(** X16.  The sequential write queue never grows beyond 100 entries: in
    every run that starts with at most 100 queued commands, the queue
    holds at most 100 commands after every step, whatever arrives. *)
Theorem sequential_queue_bounded (st : engine) (messages : list bytes) :
  bounded st →
  Forall (fun step : engine * bytes * outcome => bounded (after (snd step)))
    (run st messages).
Proof.
  revert st. induction messages as [|message more IH]; intros st Hst.
  - constructor.
  - cbn [run]. constructor; [by apply check_io_bounded|].
    destruct (raised (check_io st message)); [constructor|].
    by apply IH, check_io_bounded.
Qed.

Lemma sequential_queue_bounded_witness :
  Forall (fun step : engine * bytes * outcome => bounded (after (snd step)))
    (run (waiting None []) [b"SBDRING" ++ [LF]; []; b"OK" ++ [CR; LF]]).
Proof.
  apply (sequential_queue_bounded (waiting None [])).
  unfold bounded, maxlen. cbn. lia.
Defined.

(** ** Answers without their marker *)

Lemma lstrip_suffix (s : bytes) : ∃ x, s = x ++ lstrip s.
Proof.
  induction s as [|c s [x IH]]; [by exists []|].
  cbn [lstrip]. destruct (is_space c); [|by exists []].
  exists (c :: x). cbn [app]. by rewrite <- IH.
Qed.

Lemma strip_infix (s : bytes) : ∃ x y, s = x ++ strip s ++ y.
Proof.
  unfold strip, rstrip.
  destruct (lstrip_suffix (rev s)) as [y Hy].
  destruct (lstrip_suffix (rev (lstrip (rev s)))) as [x Hx].
  exists x, (rev y). rewrite app_assoc, <- Hx, <- rev_app_distr, <- Hy.
  by rewrite rev_involutive.
Qed.

Lemma contains_infix (sub x s y : bytes) :
  contains sub s = true → contains sub (x ++ s ++ y) = true.
Proof.
  intros H. rewrite (contains_split sub s H).
  rewrite <- !app_assoc, (app_assoc x).
  apply contains_present.
Qed.

Lemma response_token_absent (marker data : bytes) :
  contains marker data = false → response_token marker data = None.
Proof.
  intros Habsent. unfold response_token. cbv zeta.
  destruct (Z.leb_spec 0 (find marker (strip data))) as [Hfound|]; [|done].
  destruct (strip_infix data) as (x & y & Hdata).
  rewrite Hdata, contains_infix in Habsent; [done|].
  by apply Z.leb_le.
Qed.

(** X17.  The four parsers of marked answers raise their [IridiumError]
    for every input that does not contain the marker of the answer:
    [-MSSTM:] for the system time, [+CSQ:] for the signal quality,
    [+CRIS:] for the ring status and [+SBDIX:] for the session; the empty
    input is such an input. *)
Theorem parsers_need_marker (data : bytes) :
  (contains (b"-MSSTM:") data = false →
   parse_system_time data = parse_error "Could not parse the system time!")
  ∧ (contains (b"+CSQ:") data = false →
     parse_signal_quality data
     = parse_error "Could not parse the signal quality!")
  ∧ (contains (b"+CRIS:") data = false →
     parse_check_ring data
     = parse_error "Could not parse the check ring response!")
  ∧ (contains (b"+SBDIX:") data = false →
     parse_session data
     = parse_error "Could not parse the session!").
Proof.
  split_and!; intros Habsent.
  - unfold parse_system_time. by rewrite response_token_absent.
  - unfold parse_signal_quality. by rewrite response_token_absent.
  - unfold parse_check_ring. by rewrite response_token_absent.
  - unfold parse_session. by rewrite response_token_absent.
Qed.

Lemma parsers_need_marker_witness :
  parse_system_time [] = parse_error "Could not parse the system time!"
  ∧ parse_signal_quality (b"OK")
    = parse_error "Could not parse the signal quality!"
  ∧ parse_check_ring (b"+CSQ:3")
    = parse_error "Could not parse the check ring response!"
  ∧ parse_session (b"+SBDI: 0,1,0,0,0,0")
    = parse_error "Could not parse the session!".
Proof.
  split_and!.
  - apply (proj1 (parsers_need_marker [])). reflexivity.
  - apply (proj1 (proj2 (parsers_need_marker (b"OK")))). reflexivity.
  - apply (proj1 (proj2 (proj2 (parsers_need_marker (b"+CSQ:3"))))).
    reflexivity.
  - apply (proj2 (proj2 (proj2 (parsers_need_marker (b"+SBDI: 0,1,0,0,0,0"))))).
    reflexivity.
Defined.

(** X18.  [parse_system_time] refuses a value of fewer than eight
    characters, also when it is a well-formed hexadecimal number: the
    answer [-MSSTM: 1a2b] raises the [IridiumError] of the parser. *)
Theorem parse_system_time_short_value (tok : bytes) :
  printable tok → tok ≠ [] → blen tok < 8 →
  parse_system_time (b"-MSSTM: " ++ tok ++ Server.blank_line)
  = parse_error "Could not parse the system time!".
Proof.
  intros Hprint Hne Hshort.
  assert (Htoken : response_token (b"-MSSTM:")
                     ([] ++ b"-MSSTM:" ++ b" " ++ tok ++ [CR; LF; CR; LF])
                   = Some tok).
  { apply (response_token_reply (b"-MSSTM:") [] (b" ")
             tok [CR; LF; CR; LF] "-"%byte (b"MSSTM:"));
      [reflexivity | done | exact (find_prefix (b"-MSSTM:") _)
      | repeat constructor
      | by apply printable_solid | done | repeat constructor]. }
  unfold parse_system_time.
  change (b"-MSSTM: " ++ tok ++ Server.blank_line)
    with ([] ++ b"-MSSTM:" ++ b" " ++ tok ++ [CR; LF; CR; LF]).
  rewrite Htoken.
  rewrite decode_utf8_ascii by (by apply printable_ascii).
  rewrite text_len_ascii by (by apply printable_ascii).
  by destruct (Z.leb_spec 8 (blen tok)); [lia|].
Qed.

Lemma parse_system_time_short_value_witness :
  parse_system_time (b"-MSSTM: " ++ b"1a2b" ++ Server.blank_line)
  = parse_error "Could not parse the system time!".
Proof.
  apply (parse_system_time_short_value (b"1a2b"));
    [repeat constructor; by vm_compute | done | by vm_compute].
Defined.

(** ** Ping *)



(** ** Reading when nothing waits *)

(** X20.  When the emulator holds no message, its whole answer to
    [AT+SBDRB] is [OK].  A host that waits for that answer with an empty
    buffer does not take it for an answer: it reports nothing, not even a
    failure, puts [OK] and the line break back into its buffer and keeps
    the command pending; polling again without new input changes
    nothing, so the command stays pending until other bytes arrive. *)
Theorem read_binary_nothing_waiting (sv : Server.server) (st : engine) :
  Server.write_queue sv = [] →
  previous_command st = Some Command.READ_BINARY → read_buf st = [] →
  let kept := Command.OK ++ [CR; LF] in
  let stuck :=
    Outcome (set_read_buf st kept) [Print "here" [] kept] None in
  Server.check_incoming sv (Command.READ_BINARY ++ [CR])
  = Server.Returned sv [Server.ok_line]
  ∧ check_io st (concat [Server.ok_line]) = stuck
  ∧ previous_command (after stuck) = Some Command.READ_BINARY
  ∧ check_io (after stuck) [] = stuck.
Proof.
  intros Hqueue Hprev Hbuf kept stuck. split_and!.
  - change (Server.check_incoming sv (Command.READ_BINARY ++ [CR]))
      with (match Server.write_queue sv with
            | msg :: rest =>
                let sv := Server.set_write_queue sv rest in
                match to_bytes_big 2 (blen msg), calc_checksum msg with
                | Some msg_len, Some checksum =>
                    Server.Returned sv
                      [concat [Command.READ_BINARY_RECEIVE; msg_len; msg;
                               checksum; Server.blank_line];
                       Server.ok_line]
                | _, _ => Server.Raised sv [] OverflowError
                end
            | [] => Server.Returned sv [Server.ok_line]
            end).
    by rewrite Hqueue.
  - rewrite (check_io_pending st _ Command.READ_BINARY Hprev) by done.
    rewrite Hbuf. reflexivity.
  - exact Hprev.
  - rewrite (check_io_pending (after stuck) _ Command.READ_BINARY Hprev)
      by done.
    reflexivity.
Qed.

Lemma read_binary_nothing_waiting_witness :
  let sv := emulator true (b"12345") [] in
  let st := waiting (Some Command.READ_BINARY) [] in
  let kept := Command.OK ++ [CR; LF] in
  let stuck :=
    Outcome (set_read_buf st kept) [Print "here" [] kept] None in
  Server.check_incoming sv (Command.READ_BINARY ++ [CR])
  = Server.Returned sv [Server.ok_line]
  ∧ check_io st (concat [Server.ok_line]) = stuck
  ∧ previous_command (after stuck) = Some Command.READ_BINARY
  ∧ check_io (after stuck) [] = stuck.
Proof.
  apply (read_binary_nothing_waiting (emulator true (b"12345") [])
           (waiting (Some Command.READ_BINARY) []));
    reflexivity.
Defined.

(** X21.  The same unknown command is answered when a further command
    follows it in the same chunk: the emulator's final branch then sees
    the carriage return of the following command at the end of its
    buffer and writes the echo, when echo is on, and [OK]; the following
    ping is answered after it. *)
Theorem unknown_command_answered_in_company (sv : Server.server)
  (line : bytes) :
  line ∉ answered → startswith Command.WRITE_BINARY (line ++ [CR]) = false →
  CR ∉ line → Server.read_buf sv = [] →
  let chunk := line ++ [CR] ++ Command.PING ++ [CR] in
  Server.check_io sv chunk
  = Server.Returned
      (Server.set_read_history sv
         (Server.history_append (Server.read_history sv) chunk))
      (Server.echo_command sv (line ++ [CR]) ++ [Server.ok_line]
       ++ Server.echo_command sv (Command.PING ++ [CR]) ++ [Server.ok_line]).
Proof.
  intros Hunknown Hwb Hcr Hbuf chunk. unfold Server.check_io.
  assert (Hne : bytes_eqb chunk [] = false).
  { unfold bytes_eqb. apply bool_decide_eq_false_2. by destruct line. }
  rewrite Hne. cbn [negb]. cbv zeta.
  set (h := Server.history_append (Server.read_history sv) chunk).
  destruct sv as [opts sn counter quality history status msn buf queue].
  cbn [Server.read_buf] in Hbuf. subst buf.
  cbn [Server.read_buf Server.set_read_buf Server.set_read_history app].
  assert (Hfuel : length chunk = S (S (S (S (length line))))).
  { unfold chunk. rewrite length_app.
    change (length ([CR] ++ Command.PING ++ [CR])) with 4%nat. lia. }
  rewrite Hfuel.
  rewrite (dispatch_lines_line _ _ _ line (Command.PING ++ [CR])) by done.
  rewrite check_incoming_unknown by done.
  cbn [Server.read_buf Server.set_read_buf].
  change (bool_decide (last (Command.PING ++ [CR]) = Some CR)) with true.
  cbv iota.
  rewrite (dispatch_lines_line _ _ _ Command.PING [])
    by (first [absent_byte | reflexivity]).
  change (Server.check_incoming ?s (Command.PING ++ [CR]))
    with (Server.Returned s
            (Server.echo_command s (Command.PING ++ [CR])
             ++ [Server.ok_line])).
  cbv iota. rewrite dispatch_lines_done by reflexivity.
  cbn [app]. rewrite <- !app_assoc. reflexivity.
Qed.

Lemma unknown_command_answered_in_company_witness :
  let sv := emulator true (b"12345") [] in
  let chunk := Command.CLEAR_BOTH_BUFFERS ++ [CR] ++ Command.PING ++ [CR] in
  Server.check_io sv chunk
  = Server.Returned
      (Server.set_read_history sv
         (Server.history_append (Server.read_history sv) chunk))
      (Server.echo_command sv (Command.CLEAR_BOTH_BUFFERS ++ [CR])
       ++ [Server.ok_line]
       ++ Server.echo_command sv (Command.PING ++ [CR]) ++ [Server.ok_line]).
Proof.
  apply (unknown_command_answered_in_company (emulator true (b"12345") [])
           Command.CLEAR_BOTH_BUFFERS);
    [ | reflexivity | | reflexivity];
    apply (bool_decide_unpack _); by vm_compute.
Defined.

(** ** A ring while a command is pending *)



(** ** The emulator's echo setting *)

Lemma server_get_set_option (sv : Server.server) (name name' : string)
  (value : bool) :
  Server.get_option (Server.set_option sv name value) name'
  = if bool_decide (lower name = lower name') then value
    else Server.get_option sv name'.
Proof.
  unfold Server.get_option, Server.set_option, Server.set_options.
  cbn [Server.options]. case_bool_decide as Hname.
  - by rewrite Hname, lookup_insert_eq.
  - by rewrite lookup_insert_ne.
Qed.

(** X23.  [ATE0] switches the emulator's echo off before it answers: its
    own answer is the bare [OK], also when echo was on, and afterwards no
    command is echoed.  [ATE1] switches it on before it answers: its own
    answer already starts with the echo, also when echo was off.  The
    flow-control and ring-alert settings leave the echo as it is. *)
Theorem echo_setting (sv : Server.server) :
  (∃ sv',
      Server.check_incoming sv (Command.ECHO_OFF ++ [CR])
      = Server.Returned sv' [Server.ok_line]
      ∧ ∀ cmd, Server.echo_command sv' cmd = [])
  ∧ (∃ sv',
        Server.check_incoming sv (Command.ECHO_ON ++ [CR])
        = Server.Returned sv'
            [(Command.ECHO_ON ++ [CR]) ++ [CR; LF]; Server.ok_line]
        ∧ ∀ cmd, Server.echo_command sv' cmd = [cmd ++ [CR; LF]])
  ∧ (∀ c, c ∈ [Command.FLOW_CONTROL_ON; Command.FLOW_CONTROL_OFF;
                Command.RING_ALERTS_ON; Command.RING_ALERTS_OFF] →
       ∃ sv',
         Server.check_incoming sv (c ++ [CR])
         = Server.Returned sv'
             (Server.echo_command sv (c ++ [CR]) ++ [Server.ok_line])
         ∧ Server.is_echo sv' = Server.is_echo sv).
Proof.
  split_and!.
  - eexists. split; [reflexivity|]. intros cmd.
    unfold Server.echo_command, Server.is_echo.
    by rewrite server_get_set_option.
  - exists (Server.set_option sv "echo" true).
    assert (Hon : Server.is_echo (Server.set_option sv "echo" true) = true).
    { unfold Server.is_echo. by rewrite server_get_set_option. }
    split.
    + change (Server.check_incoming sv (Command.ECHO_ON ++ [CR]))
        with (Server.Returned (Server.set_option sv "echo" true)
                (Server.echo_command (Server.set_option sv "echo" true)
                   (Command.ECHO_ON ++ [CR]) ++ [Server.ok_line])).
      unfold Server.echo_command. by rewrite Hon.
    + intros cmd. unfold Server.echo_command. by rewrite Hon.
  - intros c Hc. rewrite !elem_of_cons in Hc.
    destruct Hc as [-> | [-> | [-> | [-> | Hc]]]];
      [| | | | by apply elem_of_nil in Hc].
    + exists (Server.set_option sv "flow_control" true).
      split; [|unfold Server.is_echo; by rewrite server_get_set_option].
      change (Server.check_incoming sv (Command.FLOW_CONTROL_ON ++ [CR]))
        with (Server.Returned (Server.set_option sv "flow_control" true)
                (Server.echo_command (Server.set_option sv "flow_control" true)
                   (Command.FLOW_CONTROL_ON ++ [CR]) ++ [Server.ok_line])).
      unfold Server.echo_command, Server.is_echo.
      by rewrite server_get_set_option.
    + exists (Server.set_option sv "flow_control" false).
      split; [|unfold Server.is_echo; by rewrite server_get_set_option].
      change (Server.check_incoming sv (Command.FLOW_CONTROL_OFF ++ [CR]))
        with (Server.Returned (Server.set_option sv "flow_control" false)
                (Server.echo_command
                   (Server.set_option sv "flow_control" false)
                   (Command.FLOW_CONTROL_OFF ++ [CR]) ++ [Server.ok_line])).
      unfold Server.echo_command, Server.is_echo.
      by rewrite server_get_set_option.
    + exists (Server.set_option sv "ring_alerts" true).
      split; [|unfold Server.is_echo; by rewrite server_get_set_option].
      change (Server.check_incoming sv (Command.RING_ALERTS_ON ++ [CR]))
        with (Server.Returned (Server.set_option sv "ring_alerts" true)
                (Server.echo_command (Server.set_option sv "ring_alerts" true)
                   (Command.RING_ALERTS_ON ++ [CR]) ++ [Server.ok_line])).
      unfold Server.echo_command, Server.is_echo.
      by rewrite server_get_set_option.
    + exists (Server.set_option sv "ring_alerts" false).
      split; [|unfold Server.is_echo; by rewrite server_get_set_option].
      change (Server.check_incoming sv (Command.RING_ALERTS_OFF ++ [CR]))
        with (Server.Returned (Server.set_option sv "ring_alerts" false)
                (Server.echo_command
                   (Server.set_option sv "ring_alerts" false)
                   (Command.RING_ALERTS_OFF ++ [CR]) ++ [Server.ok_line])).
      unfold Server.echo_command, Server.is_echo.
      by rewrite server_get_set_option.
Qed.

Lemma echo_setting_witness :
  ∃ sv',
    Server.check_incoming (emulator true (b"12345") [])
      (Command.FLOW_CONTROL_OFF ++ [CR])
    = Server.Returned sv'
        (Server.echo_command (emulator true (b"12345") [])
           (Command.FLOW_CONTROL_OFF ++ [CR]) ++ [Server.ok_line])
    ∧ Server.is_echo sv' = Server.is_echo (emulator true (b"12345") []).
Proof.
  apply (proj2 (proj2 (echo_setting (emulator true (b"12345") [])))
           Command.FLOW_CONTROL_OFF).
  apply (bool_decide_unpack _). by vm_compute.
Defined.

(** ** Repeating the last command *)




(** ** An idle engine *)

(** X25.  With no command pending the engine never calls the sink,
    whatever arrives: a step reports nothing and raises nothing, and the
    only thing it may write is the command at the head of the sequential
    queue.  In particular the modem's verdict on a written message, which
    arrives after [READY] has already finished the write command, is never
    reported. *)
Theorem idle_engine_is_silent (st : engine) (message : bytes) :
  truthy (previous_command st) = false →
  let o := check_io st message in
  raised o = None
  ∧ (fired o = []
     ∨ ∃ cmd rest,
         sequential_write_queue st = cmd :: rest
         ∧ contains Command.RING (read_buf st ++ message) = false
         ∧ fired o = [SerialWrite (cmd ++ [CR])]).
Proof.
  intros Hidle o. unfold o. rewrite check_io_idle by done.
  unfold check_unsolicited. cbn [read_buf set_read_buf sequential_write_queue].
  destruct (contains Command.RING (read_buf st ++ message)) eqn:Hring.
  - cbv zeta.
    destruct (negb (bool_decide (Command.SESSION ∈ sequential_write_queue _)));
      (split; [done | by left]).
  - destruct (sequential_write_queue st) as [|cmd rest] eqn:Hq.
    + destruct (last (splitlines (read_buf st ++ message)));
        (split; [done | by left]).
    + split; [done|]. right. by exists cmd, rest.
Qed.

Lemma idle_engine_is_silent_witness :
  let o := check_io (waiting None [CR; LF])
             ([CR; LF] ++ b"18" ++ [CR; LF; CR; LF] ++ b"OK" ++ [CR; LF]) in
  raised o = None
  ∧ (fired o = []
     ∨ ∃ cmd rest,
         sequential_write_queue (waiting None [CR; LF]) = cmd :: rest
         ∧ contains Command.RING
             (read_buf (waiting None [CR; LF])
              ++ [CR; LF] ++ b"18" ++ [CR; LF; CR; LF] ++ b"OK" ++ [CR; LF])
           = false
         ∧ fired o = [SerialWrite (cmd ++ [CR])]).
Proof.
  apply (idle_engine_is_silent (waiting None [CR; LF])). reflexivity.
Defined.
